(** * labgroups: the student database of [mkgrp.py] and its group assignment

    A shallow embedding of [mkgrp.py]: the group taxonomy ([MACRO_GROUPS],
    [ROOM_GROUPS], [GROUPS]), the [Student] dataclass with its
    [__post_init__] validation, and the [DataBase] dictionary with
    [check_companions] and [assign_groups].

    Python dictionaries keep insertion order and the assignment depends on
    it (iteration order of the students, tie-breaking of [min] on the
    counters), so both the database and the counter dictionary are
    association lists in insertion order.  The students are mutable objects
    shared between the dictionary and the loop variable; the database is
    therefore the store, and the loop reads the student at its position out
    of the current store.  An exception leaves the mutations done so far in
    place, so a raised outcome carries the store as well.

    Logging is modelled where it is the only observable effect of a method
    ([__post_init__], [check_companions]); the spreadsheet reader and writer
    are outside the model, and [assign_groups] is the call with
    [file_path = None]. *)

From Stdlib Require Import ZArith String Ascii List Lia DecimalString.
From stdpp Require Import base option list strings gmap.

Local Open Scope string_scope.
Local Open Scope nat_scope.
Local Open Scope list_scope.

(** ** Python helpers *)

(** What an f-string does to an [int] in [range(1, 4)]. *)
Definition py_str_nat (n : nat) : string :=
  NilZero.string_of_uint (Nat.to_uint n).

(** What an f-string does to an optional string: [None] prints as "None". *)
Definition py_str_opt (o : option string) : string :=
  match o with
  | Some s => s
  | None => "None"
  end.

(** [key.startswith(prefix)]. *)
Definition startswith (key pre : string) : bool := String.prefix pre key.

(** [text[:n]]. *)
Definition py_slice_to (n : nat) (text : string) : string :=
  String.substring 0 n text.

(** [range(a, b)]. *)
Definition py_range (a b : nat) : list nat := seq a (b - a).

(** [l[i]] for a Python list and an [int] index: negative indices count
    from the end, anything else out of range is [IndexError]. *)
Definition py_getitem {A} (l : list A) (i : Z) : option A :=
  if (0 <=? i)%Z then l !! Z.to_nat i
  else if (- Z.of_nat (length l) <=? i)%Z then l !! Z.to_nat (Z.of_nat (length l) + i)
  else None.

(** The built-in [min(iterable, key=f)]: the first element whose key is
    minimal ([<] replaces the running minimum), [ValueError] ([None]) on an
    empty iterable. *)
Definition py_min {A} (f : A → nat) (l : list A) : option A :=
  match l with
  | [] => None
  | x :: l' => Some (foldl (λ best y, if f y <? f best then y else best) x l')
  end.

(** ** The exceptions and the log *)

Inductive exn : Type :=
  | KeyError (key : string)
  | ValueError
  | AssertionError
  | IndexError.

Inductive level : Type := INFO | WARNING | ERROR.

Definition log_record : Type := level * string.

(** ** The group taxonomy *)

Definition MACRO_GROUPS : list string := ["A1"; "B1"; "A2"; "B2"].

Definition ROOM_GROUPS : list string :=
  flat_map (λ grp,
    map (λ room, grp +:+ "-" +:+ py_str_nat room) (py_range 1 4))
    MACRO_GROUPS.

Definition GROUPS : list string :=
  flat_map (λ grp,
    flat_map (λ room,
      map (λ turn, grp +:+ "-" +:+ py_str_nat room +:+ "-" +:+ py_str_nat turn)
          (py_range 1 3))
      (py_range 1 4))
    MACRO_GROUPS.

(** ** Dictionaries in insertion order *)

Abbreviation dict V := (list (string * V)) (only parsing).

Definition keys {V} (d : dict V) : list string := map fst d.

Definition values {V} (d : dict V) : list V := map snd d.

(** [d.get(key)]. *)
Fixpoint dict_get {V} (d : dict V) (key : string) : option V :=
  match d with
  | [] => None
  | (k, v) :: d' => if String.eqb k key then Some v else dict_get d' key
  end.

(** The position and value of [d[key]]; [None] is [KeyError]. *)
Fixpoint dict_find {V} (d : dict V) (key : string) : option (nat * V) :=
  match d with
  | [] => None
  | (k, v) :: d' =>
      if String.eqb k key then Some (0, v)
      else match dict_find d' key with
           | Some (j, w) => Some (S j, w)
           | None => None
           end
  end.

(** [d[key] = value]: an existing key keeps its position, a new one goes
    to the end. *)
Fixpoint dict_setitem {V} (d : dict V) (key : string) (value : V) : dict V :=
  match d with
  | [] => [(key, value)]
  | (k, v) :: d' =>
      if String.eqb k key then (k, value) :: d'
      else (k, v) :: dict_setitem d' key value
  end.

(** [d[key] += 1]; [None] is the [KeyError] of reading a missing key. *)
Fixpoint dict_incr (d : dict nat) (key : string) : option (dict nat) :=
  match d with
  | [] => None
  | (k, v) :: d' =>
      if String.eqb k key then Some ((k, S v) :: d')
      else match dict_incr d' key with
           | Some d'' => Some ((k, v) :: d'')
           | None => None
           end
  end.

(** ** Students *)

Record Student : Type := mkStudent {
  name : string;
  surname : string;
  identifier : Z;
  email : string;
  macro_group : string;
  companion_name : option string;
  companion_surname : option string;
  notes : option string;
  group : option string
}.

(** [student.group = grp]. *)
Definition set_group (s : Student) (grp : string) : Student :=
  {| name := name s; surname := surname s; identifier := identifier s;
     email := email s; macro_group := macro_group s;
     companion_name := companion_name s;
     companion_surname := companion_surname s;
     notes := notes s; group := Some grp |}.

Definition full_name (self : Student) : string :=
  name self +:+ " " +:+ surname self.

Definition companion_full_name (self : Student) : option string :=
  match companion_name self, companion_surname self with
  | None, None => None
  | cn, cs => Some (py_str_opt cn +:+ " " +:+ py_str_opt cs)
  end.

Definition has_companion (self : Student) : bool :=
  match companion_full_name self with
  | Some _ => true
  | None => false
  end.

Section PostInit.

(** The table read from the sheet 'Cambi' when the module is loaded. *)
Variable GROUP_CHANGES : gmap Z string.

(** The [try]/[except KeyError] of [__post_init__]. *)
Definition expected_group (self : Student) : exn + string :=
  match GROUP_CHANGES !! identifier self with
  | Some expected => inr expected
  | None =>
      match py_getitem MACRO_GROUPS (identifier self mod 4) with
      | Some expected => inr expected
      | None => inl IndexError
      end
  end.

Definition post_init (self : Student) : exn + list log_record :=
  match expected_group self with
  | inl e => inl e
  | inr expected =>
      if negb (String.eqb (macro_group self) expected) then
        inr [(ERROR, "Group for " +:+ full_name self +:+ " is "
                       +:+ macro_group self +:+ " instead of " +:+ expected)]
      else inr []
  end.

(** The call [Student] makes on the eight columns of a row: the dataclass
    constructor stores the fields, leaves [group] at its default and runs
    [__post_init__]. *)
Definition new_Student (name surname : string) (identifier : Z)
    (email macro_group : string)
    (companion_name companion_surname notes : option string)
    : exn + (Student * list log_record) :=
  let self := mkStudent name surname identifier email macro_group
                companion_name companion_surname notes None in
  match post_init self with
  | inl e => inl e
  | inr log => inr (self, log)
  end.

End PostInit.

(** ** The database *)

Abbreviation DataBase := (dict Student) (only parsing).

(** The body of the loop of [__init__] once the students are built:
    [self[student.full_name()] = student]. *)
Definition DataBase_of (students : list Student) : DataBase :=
  foldl (λ self student, dict_setitem self (full_name student) student)
        [] students.

(** One iteration of the loop of [check_companions]. *)
Definition check_companion (self : DataBase) (student : Student)
    : list log_record :=
  match companion_full_name student with
  | None => []
  | Some cfn =>
      match dict_find self cfn with
      | None =>
          [(ERROR, "Cannot find " +:+ cfn +:+ " to match with "
                     +:+ full_name student)]
      | Some (_, companion) =>
          if negb (bool_decide (companion_full_name companion
                                = Some (full_name student))) then
            [(ERROR, "Companion mismatch " +:+ full_name student +:+ " -> "
                       +:+ cfn +:+ " -> "
                       +:+ py_str_opt (companion_full_name companion))]
          else if negb (String.eqb (macro_group student)
                                   (macro_group companion)) then
            [(ERROR, "Group mismatch: " +:+ full_name student +:+ " "
                       +:+ macro_group student +:+ " <-> "
                       +:+ full_name companion +:+ " "
                       +:+ macro_group companion)]
          else []
      end
  end.

Definition check_companions (self : DataBase) : list log_record :=
  flat_map (check_companion self) (values self).

(** [dict_subset(dict_, macro_group)]. *)
Definition dict_subset {V} (dict_ : dict V) (macro_group : string) : dict V :=
  filter (λ kv, startswith kv.1 macro_group = true) dict_.

(** The store of [assign_groups]: the students and the counters. *)
Abbreviation state := (DataBase * dict nat)%type (only parsing).

Inductive outcome : Type :=
  | Returned (st : state)
  | Raised (e : exn) (st : state).

Definition final_state (o : outcome) : state :=
  match o with
  | Returned st => st
  | Raised _ st => st
  end.

(** [min(_subdict, key=_subdict.get)]; the keys of a dictionary are
    never missed by its own [get]. *)
Definition min_group (_subdict : dict nat) : option string :=
  py_min (λ k, default 0 (dict_get _subdict k)) (keys _subdict).

(** [student.group = grp] for the student at position [i] of the store. *)
Definition store_group (i : nat) (grp : string) (self : DataBase) : DataBase :=
  alter (λ kv, (kv.1, set_group kv.2 grp)) i self.

(** The body of the first loop of [assign_groups], for the student at
    position [i] of [self.values()]. *)
Definition assign_body (i : nat) (st : state) : outcome :=
  let '(self, count_dict) := st in
  match self !! i with
  | None => Returned st
  | Some (_, student) =>
      match group student with
      | Some _ => Returned st
      | None =>
          let _subdict := dict_subset count_dict (macro_group student) in
          match min_group _subdict with
          | None => Raised ValueError st
          | Some grp =>
              if negb (String.eqb (py_slice_to 2 grp) (macro_group student))
              then Raised AssertionError st
              else
                let self1 := store_group i grp self in
                match dict_incr count_dict grp with
                | None => Raised (KeyError grp) (self1, count_dict)
                | Some count1 =>
                    let st1 := (self1, count1) in
                    if negb (has_companion student) then Returned st1
                    else
                      match companion_full_name student with
                      | None => Raised (KeyError "None") st1
                      | Some cfn =>
                          match dict_find self1 cfn with
                          | None => Raised (KeyError cfn) st1
                          | Some (j, companion) =>
                              match group companion with
                              | Some _ => Returned st1
                              | None =>
                                  let self2 := store_group j grp self1 in
                                  match dict_incr count1 grp with
                                  | None => Raised (KeyError grp) (self2, count1)
                                  | Some count2 => Returned (self2, count2)
                                  end
                              end
                          end
                      end
                end
          end
      end
  end.

Fixpoint assign_loop (positions : list nat) (st : state) : outcome :=
  match positions with
  | [] => Returned st
  | i :: rest =>
      match assign_body i st with
      | Returned st' => assign_loop rest st'
      | Raised e st' => Raised e st'
      end
  end.

Definition init_counts : dict nat := map (λ grp, (grp, 0)) GROUPS.

(** [assign_groups(file_path=None)]: the students after the call and the
    returned [count_dict], or the exception and the store it leaves. *)
Definition assign_groups (self : DataBase) : outcome :=
  assign_loop (seq 0 (length self)) (self, init_counts).

(** The groups of the students, in iteration order. *)
Definition groups_of (self : DataBase) : list (option string) :=
  map group (values self).

(** How many students of the database are in group [grp]. *)
Definition occupancy (self : DataBase) (grp : string) : nat :=
  length (filter (λ kv, group kv.2 = Some grp) self).

(** The counter of [grp], as [min] reads it. *)
Definition count_of (count_dict : dict nat) (grp : string) : nat :=
  default 0 (dict_get count_dict grp).

(** The leaf groups under a macro group, in the order of [GROUPS]. *)
Definition candidates (macro_group : string) : list string :=
  filter (λ grp, startswith grp macro_group = true) GROUPS.

(** ** Specification vocabulary *)

(** A student without the mutable field. *)
Definition erase_group (s : Student) : Student :=
  {| name := name s; surname := surname s; identifier := identifier s;
     email := email s; macro_group := macro_group s;
     companion_name := companion_name s;
     companion_surname := companion_surname s;
     notes := notes s; group := None |}.

(** What [assign_groups] never changes: the keys, their order and every
    field of the students but [group]. *)
Definition roster (self : DataBase) : list (string * Student) :=
  map (λ kv, (kv.1, erase_group kv.2)) self.

(** No student has a group yet, as after [__init__]. *)
Definition unassigned (self : DataBase) : Prop :=
  ∀ key student, (key, student) ∈ self → group student = None.

(** Every student has a group. *)
Definition all_assigned (self : DataBase) : Prop :=
  ∀ key student, (key, student) ∈ self → is_Some (group student).

(** How many students have a group. *)
Definition assigned (self : DataBase) : nat :=
  length (filter (λ kv, is_Some (group kv.2)) self).

(** How many students each iteration of the loop places: 0 when the
    student is skipped, 1 for a student placed alone, 2 for a student
    placed together with the companion. *)
Fixpoint unit_sizes (positions : list nat) (st : state) : list nat :=
  match positions with
  | [] => []
  | i :: rest =>
      let o := assign_body i st in
      (assigned (final_state o).1 - assigned st.1)
      :: match o with
         | Returned st' => unit_sizes rest st'
         | Raised _ _ => []
         end
  end.

(** The size of the largest unit (single student or companion pair) the
    run places by one selection. *)
Definition largest_unit (self : DataBase) : nat :=
  max_list (unit_sizes (seq 0 (length self)) (self, init_counts)).

(** The counters of one macro group differ by at most [bound]. *)
Definition balanced (count_dict : dict nat) (bound : nat) : Prop :=
  ∀ mg g1 g2, In mg MACRO_GROUPS → In g1 (candidates mg) → In g2 (candidates mg) →
    count_of count_dict g1 ≤ count_of count_dict g2 + bound.

(** The companion full name as the specification words it: both fields
    present, or absent. *)
Definition companion_full_name_spec (self : Student) : option string :=
  match companion_name self, companion_surname self with
  | Some cn, Some cs => Some (cn +:+ " " +:+ cs)
  | _, _ => None
  end.

(** The cases of one iteration of the loop of [assign_groups]. *)
Inductive body_spec (i : nat) (self : DataBase) (count_dict : dict nat)
    : outcome → Prop :=
  | body_skip :
      (∀ key student, self !! i = Some (key, student) → is_Some (group student)) →
      body_spec i self count_dict (Returned (self, count_dict))
  | body_no_candidate key student :
      self !! i = Some (key, student) → group student = None →
      min_group (dict_subset count_dict (macro_group student)) = None →
      body_spec i self count_dict (Raised ValueError (self, count_dict))
  | body_assert key student grp :
      self !! i = Some (key, student) → group student = None →
      min_group (dict_subset count_dict (macro_group student)) = Some grp →
      py_slice_to 2 grp ≠ macro_group student →
      body_spec i self count_dict (Raised AssertionError (self, count_dict))
  | body_single key student grp count1 :
      self !! i = Some (key, student) → group student = None →
      min_group (dict_subset count_dict (macro_group student)) = Some grp →
      py_slice_to 2 grp = macro_group student →
      dict_incr count_dict grp = Some count1 →
      (companion_full_name student = None ∨
       ∃ cfn j companion,
         companion_full_name student = Some cfn ∧
         dict_find (store_group i grp self) cfn = Some (j, companion) ∧
         is_Some (group companion)) →
      body_spec i self count_dict (Returned (store_group i grp self, count1))
  | body_missing key student grp count1 cfn :
      self !! i = Some (key, student) → group student = None →
      min_group (dict_subset count_dict (macro_group student)) = Some grp →
      py_slice_to 2 grp = macro_group student →
      dict_incr count_dict grp = Some count1 →
      companion_full_name student = Some cfn →
      dict_find (store_group i grp self) cfn = None →
      body_spec i self count_dict
        (Raised (KeyError cfn) (store_group i grp self, count1))
  | body_pair key student grp count1 count2 cfn j companion :
      self !! i = Some (key, student) → group student = None →
      min_group (dict_subset count_dict (macro_group student)) = Some grp →
      py_slice_to 2 grp = macro_group student →
      dict_incr count_dict grp = Some count1 →
      companion_full_name student = Some cfn →
      dict_find (store_group i grp self) cfn = Some (j, companion) →
      group companion = None →
      dict_incr count1 grp = Some count2 →
      body_spec i self count_dict
        (Returned (store_group j grp (store_group i grp self), count2)).

(** The roster is kept, and a student that has a group keeps it. *)
Definition grows (self self' : DataBase) : Prop :=
  roster self' = roster self ∧
  ∀ j key student, self !! j = Some (key, student) →
    is_Some (group student) → self' !! j = Some (key, student).

(** The counters are the gain in occupancy since the call. *)
Definition counts_gain (self0 : DataBase) (st : state) : Prop :=
  keys st.2 = GROUPS ∧
  ∀ g, count_of st.2 g + occupancy self0 g = occupancy st.1 g.

(** Every group given so far is a leaf group, and its first two characters
    are the macro group of the student, or of a student of the same group
    who names this student as companion. *)
Definition placed_ok (self : DataBase) : Prop :=
  ∀ j key student grp,
    self !! j = Some (key, student) → group student = Some grp →
    In grp GROUPS ∧
    (py_slice_to 2 grp = macro_group student ∨
     ∃ p kt t, self !! p = Some (kt, t) ∧
       companion_full_name t = Some key ∧ group t = Some grp ∧
       py_slice_to 2 grp = macro_group t).

(** The students at positions [a] and [b] are both as before the call, or
    both in one group. *)
Definition pair_state (a b : nat) (sa sb : Student) (self : DataBase) : Prop :=
  (self !! a = Some (full_name sa, sa) ∧ self !! b = Some (full_name sb, sb)) ∨
  ∃ grp, self !! a = Some (full_name sa, set_group sa grp) ∧
         self !! b = Some (full_name sb, set_group sb grp).

(** Nobody but the students at [a] and [b] names one of the two. *)
Definition no_third (a b : nat) (sa sb : Student) (self : DataBase) : Prop :=
  ∀ c key student, self !! c = Some (key, student) → c ≠ a → c ≠ b →
    companion_full_name student ≠ Some (full_name sa) ∧
    companion_full_name student ≠ Some (full_name sb).

(** Every student declares one of the four macro groups. *)
Definition valid_groups (self : DataBase) : Prop :=
  ∀ key student, (key, student) ∈ self → In (macro_group student) MACRO_GROUPS.

(** Every companion that is named is in the database. *)
Definition companions_present (self : DataBase) : Prop :=
  ∀ key student cfn, (key, student) ∈ self →
    companion_full_name student = Some cfn → cfn ∈ keys self.

(** ** Example rosters *)

Definition alice (mg : string) (grp : option string) : Student :=
  mkStudent "Alice" "Rossi" 596001 "a.rossi@studenti.unipi.it" mg
            (Some "Bob") (Some "Bianchi") None grp.

Definition bob (mg : string) : Student :=
  mkStudent "Bob" "Bianchi" 596002 "b.bianchi@studenti.unipi.it" mg
            (Some "Alice") (Some "Rossi") None None.

Definition carl (mg : string) : Student :=
  mkStudent "Carl" "Verdi" 596003 "c.verdi@studenti.unipi.it" mg
            (Some "Alice") (Some "Rossi") None None.

Definition single (nm : string) (mg : string) (grp : option string) : Student :=
  mkStudent nm "Neri" 596004 "neri@studenti.unipi.it" mg None None None grp.

(** Alice and Bob, who name each other, both in B2. *)
Definition roster_pair : DataBase :=
  DataBase_of [alice "B2" None; bob "B2"].

(** Alice in A1 and Bob in B1, who name each other. *)
Definition roster_cross : DataBase :=
  DataBase_of [alice "A1" None; bob "B1"].

(** Alice names Bob, who is not in the database. *)
Definition roster_missing : DataBase :=
  DataBase_of [alice "B2" None].

(** Carl names Alice; Alice and Bob name each other; all in A1. *)
Definition roster_third : DataBase :=
  DataBase_of [carl "A1"; alice "A1" None; bob "A1"].

(** A student who has a group before the call. *)
Definition roster_preassigned : DataBase :=
  DataBase_of [single "Dora" "A1" (Some "A1-1-1")].

(** A student whose macro group is not one of the four. *)
Definition roster_unknown : DataBase :=
  DataBase_of [single "Dora" "C1" None].

(** Seven students of A1 and one of B2, none with a companion. *)
Definition roster_singles : DataBase :=
  DataBase_of [single "Dora" "A1" None; single "Elio" "A1" None;
               single "Fabio" "A1" None; single "Gina" "B2" None;
               single "Ivo" "A1" None; single "Lia" "A1" None;
               single "Mara" "A1" None; single "Nino" "A1" None].

(** ** The rest of the module *)

(** The loop that fills [GROUP_CHANGES] from the rows of the sheet 'Cambi',
    each a pair of 'Matricola' and 'Gruppo':
    [GROUP_CHANGES[row['Matricola']] = row['Gruppo']]. *)
Definition load_GROUP_CHANGES (rows : list (Z * string)) : gmap Z string :=
  foldl (λ changes row, <[row.1 := row.2]> changes) ∅ rows.



Section Init.

Variable GROUP_CHANGES : gmap Z string.




End Init.

(** The totals that [assign_groups] logs after the loop, one for each macro
    group: [sum(self.dict_subset(count_dict, macro_group).values())]. *)
Definition macro_counts (count_dict : dict nat) : list (string * nat) :=
  map (λ mg, (mg, sum_list (values (dict_subset count_dict mg)))) MACRO_GROUPS.

(** [[f'{group}-{turn}' for turn in range(1, 3)]]. *)
Definition turn_groups (room_group : string) : list string :=
  map (λ turn, room_group +:+ "-" +:+ py_str_nat turn) (py_range 1 3).

(** [student.group in groups]; [None] is in no list of strings. *)
Definition in_groups (student : Student) (groups : list string) : bool :=
  match group student with
  | Some grp => bool_decide (grp ∈ groups)
  | None => false
  end.

(** The students of the sheet of a room group, before the table is sorted
    and written. *)
Definition sheet_students (self : DataBase) (room_group : string) : list Student :=
  filter (λ student, in_groups student (turn_groups room_group) = true)
         (values self).

(** The columns 'Nome', 'Cognome', 'Matricola', 'email' and 'Gruppo' of the
    sheet, row by row. *)
Definition sheet_data (self : DataBase) (room_group : string)
    : list (string * string * Z * string * option string) :=
  map (λ student, (name student, surname student, identifier student,
                   email student, group student))
      (sheet_students self room_group).

(** The sheets of the output file, in the order they are written. *)
Definition sheets (self : DataBase)
    : list (string * list (string * string * Z * string * option string)) :=
  map (λ room_group, (room_group, sheet_data self room_group)) ROOM_GROUPS.

(** Every companion that is named is in the database, names the student
    back and declares the same macro group. *)
Definition companions_consistent (self : DataBase) : Prop :=
  ∀ key student cfn, (key, student) ∈ self →
    companion_full_name student = Some cfn →
    ∃ j companion, dict_find self cfn = Some (j, companion) ∧
      companion_full_name companion = Some (full_name student) ∧
      macro_group student = macro_group companion.

(** Every key is the full name of its student. *)
Definition keyed_by_full_name (self : DataBase) : Prop :=
  ∀ key student, (key, student) ∈ self → key = full_name student.

(** The sum of the counters. *)
Definition total (count_dict : dict nat) : nat := sum_list (values count_dict).

(** The counters after [k] students of macro group [mg] have been dealt
    one by one: each candidate has got [k / 6] students and the first
    [k mod 6] candidates one more. *)
Definition stair (mg : string) (k : nat) (count_dict : dict nat) : Prop :=
  keys count_dict = GROUPS ∧
  ∀ j g, candidates mg !! j = Some g →
    count_of count_dict g = k / 6 + (if decide (j < k mod 6) then 1 else 0).

(** * Properties *)

(** ** Dictionaries *)

Section Dict.
Context {V : Type}.
Implicit Types (d : dict V) (key : string).

Lemma dict_find_Some d key j v :
  dict_find d key = Some (j, v) →
  d !! j = Some (key, v) ∧
  ∀ j' kv, j' < j → d !! j' = Some kv → kv.1 ≠ key.
Proof.
  revert j. induction d as [|[k w] d IH]; intros j; simpl; [done|].
  destruct (String.eqb_spec k key) as [->|Hne].
  - intros [= <- <-]. split; [done|]. intros; lia.
  - destruct (dict_find d key) as [[j0 w0]|] eqn:E; [|done].
    intros [= <- <-]. destruct (IH _ eq_refl) as [H1 H2]. split; [done|].
    intros [|j'] kv Hlt; simpl.
    + by intros [= <-].
    + apply H2. lia.
Qed.

Lemma dict_find_None d key : dict_find d key = None → key ∉ keys d.
Proof.
  induction d as [|[k w] d IH]; simpl; [intros _; apply not_elem_of_nil|].
  destruct (String.eqb_spec k key) as [->|Hne]; [done|].
  destruct (dict_find d key) as [[j0 w0]|]; [done|].
  intros _. rewrite not_elem_of_cons. split; [done|]. by apply IH.
Qed.

Lemma dict_find_lookup d key j v :
  NoDup (keys d) → d !! j = Some (key, v) → dict_find d key = Some (j, v).
Proof.
  revert j. induction d as [|[k w] d IH]; intros j Hnd; simpl; [done|].
  apply NoDup_cons in Hnd as [Hk Hnd].
  destruct j as [|j]; simpl.
  - intros [= -> ->]. by rewrite String.eqb_refl.
  - intros Hj. destruct (String.eqb_spec k key) as [->|Hne].
    + exfalso. apply Hk. apply list_elem_of_fmap. exists (key, v).
      split; [done|]. by eapply list_elem_of_lookup_2.
    + by rewrite (IH j Hnd Hj).
Qed.

Lemma dict_get_subset d mg key :
  startswith key mg = true →
  dict_get (dict_subset d mg) key = dict_get d key.
Proof.
  intros Hk. induction d as [|[k w] d IH]; [done|].
  unfold dict_subset in *. rewrite filter_cons. simpl.
  destruct (String.eqb_spec k key) as [->|Hne].
  - rewrite decide_True by done. simpl. by rewrite String.eqb_refl.
  - case_decide; simpl; [|done].
    destruct (String.eqb_spec k key); [done|]. apply IH.
Qed.

Lemma keys_subset d mg :
  keys (dict_subset d mg) = filter (λ g, startswith g mg = true) (keys d).
Proof.
  induction d as [|[k w] d IH]; [done|].
  unfold dict_subset, keys in *. simpl. rewrite !filter_cons. simpl.
  case_decide; simpl; by rewrite IH.
Qed.

End Dict.

Lemma dict_incr_keys d key d' : dict_incr d key = Some d' → keys d' = keys d.
Proof.
  revert d'. induction d as [|[k w] d IH]; intros d'; simpl; [done|].
  destruct (String.eqb k key); [by intros [= <-]|].
  destruct (dict_incr d key) as [d0|]; [|done].
  intros [= <-]. simpl. f_equal. by apply IH.
Qed.

Lemma dict_incr_get d key d' g :
  dict_incr d key = Some d' →
  count_of d' g = count_of d g + (if decide (g = key) then 1 else 0).
Proof.
  unfold count_of. revert d'.
  induction d as [|[k w] d IH]; intros d'; simpl; [done|].
  destruct (String.eqb_spec k key) as [->|Hne].
  - intros [= <-]. simpl. destruct (String.eqb_spec key g) as [->|Hne].
    + rewrite decide_True by done. simpl. lia.
    + rewrite decide_False by done. lia.
  - destruct (dict_incr d key) as [d0|]; [|done].
    intros [= <-]. simpl. destruct (String.eqb_spec k g) as [->|Hne'].
    + rewrite decide_False by done. simpl. lia.
    + by apply IH.
Qed.

Lemma dict_incr_is_Some d key : key ∈ keys d → is_Some (dict_incr d key).
Proof.
  induction d as [|[k w] d IH]; simpl.
  - intros H. by apply elem_of_nil in H.
  - intros H. destruct (String.eqb_spec k key) as [->|Hne]; [by eexists|].
    apply elem_of_cons in H as [H|H]; [congruence|].
    destruct (IH H) as [d0 ->]. by eexists.
Qed.

(** ** The built-in [min] *)

Lemma py_min_first {A} (f : A → nat) (l : list A) (m : A) :
  py_min f l = Some m →
  ∃ pre post, l = pre ++ m :: post ∧
    (∀ y, y ∈ pre → f m < f y) ∧ (∀ y, y ∈ post → f m ≤ f y).
Proof.
  destruct l as [|x l]; [done|]. simpl. intros [= <-].
  induction l as [|y l IH] using rev_ind.
  - exists [], []. simpl. split_and!; [done|intros ? H..]; by apply elem_of_nil in H.
  - rewrite foldl_app. simpl.
    set (m := foldl _ x l) in *. destruct IH as (pre & post & Hl & Hpre & Hpost).
    destruct (Nat.ltb_spec (f y) (f m)) as [Hlt|Hge].
    + exists (x :: l), []. split_and!.
      * done.
      * intros z Hz. rewrite Hl in Hz.
        apply elem_of_app in Hz as [Hz|Hz]; [specialize (Hpre z Hz); lia|].
        apply elem_of_cons in Hz as [->|Hz]; [done|].
        specialize (Hpost z Hz). lia.
      * intros ? H. by apply elem_of_nil in H.
    + exists pre, (post ++ [y]). split_and!.
      * change (x :: l ++ [y]) with ((x :: l) ++ [y]). rewrite Hl.
        by rewrite <- app_assoc.
      * done.
      * intros z Hz. apply elem_of_app in Hz as [Hz|Hz]; [by apply Hpost|].
        apply list_elem_of_singleton in Hz as ->. done.
Qed.

Lemma min_group_Some count_dict mg grp :
  min_group (dict_subset count_dict mg) = Some grp →
  ∃ pre post,
    filter (λ g, startswith g mg = true) (keys count_dict) = pre ++ grp :: post ∧
    (∀ g, g ∈ pre → count_of count_dict grp < count_of count_dict g) ∧
    (∀ g, g ∈ post → count_of count_dict grp ≤ count_of count_dict g).
Proof.
  unfold min_group. intros H.
  apply py_min_first in H as (pre & post & Hl & Hpre & Hpost).
  rewrite keys_subset in Hl.
  assert (Hin : ∀ g, g ∈ pre ++ grp :: post → startswith g mg = true).
  { intros g Hg. rewrite <- Hl in Hg. by apply list_elem_of_filter in Hg as [? _]. }
  assert (Hget : ∀ g, g ∈ pre ++ grp :: post →
            default 0 (dict_get (dict_subset count_dict mg) g) = count_of count_dict g).
  { intros g Hg. unfold count_of. by rewrite dict_get_subset by auto. }
  exists pre, post. split; [done|].
  assert (Hgrp : grp ∈ pre ++ grp :: post).
  { apply elem_of_app. right. apply elem_of_cons. by left. }
  split; intros g Hg.
  - rewrite <- (Hget g), <- (Hget grp); [by apply Hpre|done|].
    apply elem_of_app. by left.
  - rewrite <- (Hget g), <- (Hget grp); [by apply Hpost|done|].
    apply elem_of_app. right. apply elem_of_cons. by right.
Qed.

Lemma min_group_None count_dict mg :
  min_group (dict_subset count_dict mg) = None →
  filter (λ g, startswith g mg = true) (keys count_dict) = [].
Proof.
  unfold min_group. rewrite keys_subset.
  by destruct (filter _ (keys count_dict)).
Qed.

Lemma min_group_elem count_dict mg grp :
  min_group (dict_subset count_dict mg) = Some grp →
  grp ∈ keys count_dict ∧ startswith grp mg = true.
Proof.
  intros H. apply min_group_Some in H as (pre & post & Hl & _).
  assert (Hin : grp ∈ filter (λ g, startswith g mg = true) (keys count_dict)).
  { rewrite Hl. apply elem_of_app. right. apply elem_of_cons. by left. }
  apply list_elem_of_filter in Hin as [? ?]. done.
Qed.

(** ** The store *)

Lemma store_group_lookup i grp (self : DataBase) key student :
  self !! i = Some (key, student) →
  store_group i grp self !! i = Some (key, set_group student grp).
Proof.
  intros H. unfold store_group. rewrite list_lookup_alter_eq, H. done.
Qed.

Lemma store_group_lookup_ne i j grp (self : DataBase) :
  i ≠ j → store_group i grp self !! j = self !! j.
Proof. intros H. unfold store_group. by apply list_lookup_alter_ne. Qed.

Lemma store_group_roster i grp (self : DataBase) :
  roster (store_group i grp self) = roster self.
Proof.
  unfold roster, store_group. revert i.
  induction self as [|[k s] self IH]; intros [|i]; simpl; try done.
  f_equal. apply IH.
Qed.

Lemma filter_alter_length {A} (P : A → Prop) `{!∀ x, Decision (P x)}
    (f : A → A) (l : list A) (i : nat) (x : A) :
  l !! i = Some x → ¬ P x →
  length (filter P (alter f i l))
  = length (filter P l) + (if decide (P (f x)) then 1 else 0).
Proof.
  revert i. induction l as [|y l IH]; intros [|i] Hi Hx; try done.
  - injection Hi as ->.
    change (alter f 0 (x :: l)) with (f x :: l). rewrite !filter_cons.
    rewrite (decide_False (P:=P x)) by done.
    destruct (decide (P (f x))); simpl; lia.
  - change (alter f (S i) (y :: l)) with (y :: alter f i l).
    change ((y :: l) !! S i) with (l !! i) in Hi. rewrite !filter_cons.
    destruct (decide (P y)); simpl; rewrite (IH i Hi Hx); lia.
Qed.

Lemma store_group_occupancy i grp (self : DataBase) key student g :
  self !! i = Some (key, student) → group student = None →
  occupancy (store_group i grp self) g
  = occupancy self g + (if decide (g = grp) then 1 else 0).
Proof.
  intros Hi Hg. unfold occupancy, store_group.
  rewrite (filter_alter_length _ _ _ _ _ Hi) by (simpl; congruence).
  f_equal. destruct (decide (g = grp)) as [->|Hne].
  - by rewrite decide_True.
  - rewrite decide_False; [done|]. simpl. congruence.
Qed.

Lemma store_group_assigned i grp (self : DataBase) key student :
  self !! i = Some (key, student) → group student = None →
  assigned (store_group i grp self) = S (assigned self).
Proof.
  intros Hi Hg. unfold assigned, store_group.
  rewrite (filter_alter_length _ _ _ _ _ Hi).
  - rewrite decide_True by (by eexists). lia.
  - simpl. rewrite Hg. by intros [? ?].
Qed.

(** ** One iteration *)

Lemma assign_body_spec i (self : DataBase) (count_dict : dict nat) :
  body_spec i self count_dict (assign_body i (self, count_dict)).
Proof.
  unfold assign_body.
  destruct (self !! i) as [[key student]|] eqn:Hi;
    [|apply body_skip; intros ? ?; by rewrite Hi].
  destruct (group student) as [g0|] eqn:Hg.
  { apply body_skip. intros ? ?. rewrite Hi. intros [= <- <-].
    rewrite Hg. by eexists. }
  destruct (min_group _) as [grp|] eqn:Hmin;
    [|by eapply body_no_candidate].
  destruct (String.eqb_spec (py_slice_to 2 grp) (macro_group student)) as [Ha|Ha];
    simpl; [|by eapply body_assert].
  destruct (min_group_elem _ _ _ Hmin) as [Hin _].
  destruct (dict_incr_is_Some _ _ Hin) as [count1 H1]. rewrite H1.
  unfold has_companion.
  destruct (companion_full_name student) as [cfn|] eqn:Hc; simpl;
    [|eapply body_single; eauto].
  destruct (dict_find _ cfn) as [[j companion]|] eqn:Hf;
    [|by eapply body_missing].
  destruct (group companion) as [g1|] eqn:Hgc.
  { eapply body_single; eauto. right. exists cfn, j, companion.
    rewrite Hgc. eauto. }
  rewrite <- (dict_incr_keys _ _ _ H1) in Hin.
  destruct (dict_incr_is_Some _ _ Hin) as [count2 H2]. rewrite H2.
  by eapply body_pair.
Qed.

(** ** The loop *)

(** A property kept by every iteration that returns holds when the loop
    returns. *)
Lemma assign_loop_Returned (P : state → Prop) positions :
  (∀ i self count_dict st',
     P (self, count_dict) →
     body_spec i self count_dict (Returned st') → P st') →
  ∀ st st', P st → assign_loop positions st = Returned st' → P st'.
Proof.
  intros Hstep. induction positions as [|i rest IH]; intros [self cd] st' HP; cbn [assign_loop].
  - by intros [= <-].
  - pose proof (assign_body_spec i self cd) as Hb.
    destruct (assign_body i (self, cd)) as [st1|]; [|done].
    apply IH. by eapply Hstep.
Qed.

(** When the loop raises, one iteration raised, from a state that the
    iterations before it reached by returning. *)
Lemma assign_loop_Raised (P : state → Prop) positions :
  (∀ i self count_dict st',
     P (self, count_dict) →
     body_spec i self count_dict (Returned st') → P st') →
  ∀ st e st', P st → assign_loop positions st = Raised e st' →
    ∃ i self count_dict, In i positions ∧ P (self, count_dict) ∧
      body_spec i self count_dict (Raised e st').
Proof.
  intros Hstep. induction positions as [|i rest IH]; intros [self cd] e st' HP; cbn [assign_loop].
  - done.
  - pose proof (assign_body_spec i self cd) as Hb.
    destruct (assign_body i (self, cd)) as [st1|e1 st1].
    + intros H. destruct (IH st1 e st') as (i' & s' & c' & ? & ? & ?); [by eapply Hstep|done|].
      exists i', s', c'. split_and!; [by right|done..].
    + intros [= -> ->]. exists i, self, cd. split_and!; [by left|done..].
Qed.

(** ** The taxonomy *)

Lemma GROUPS_length : length GROUPS = 24.
Proof. reflexivity. Qed.

Lemma GROUPS_NoDup : NoDup GROUPS.
Proof. apply (bool_decide_unpack _). vm_compute. exact I. Qed.

Lemma candidates_length mg : In mg MACRO_GROUPS → length (candidates mg) = 6.
Proof.
  intros H. repeat (destruct H as [<-|H]; [reflexivity|]). destruct H.
Qed.

Lemma candidates_GROUPS mg g : In g (candidates mg) → In g GROUPS.
Proof.
  intros H. apply list_elem_of_In, list_elem_of_filter in H as [_ H].
  by apply list_elem_of_In.
Qed.

(** A leaf group starts with one macro group only, its first two
    characters. *)
Lemma startswith_slice g mg :
  In g GROUPS → In mg MACRO_GROUPS →
  startswith g mg = true → py_slice_to 2 g = mg.
Proof.
  intros Hg Hmg.
  assert (Hall : forallb (λ g, forallb (λ mg,
            implb (startswith g mg) (String.eqb (py_slice_to 2 g) mg))
            MACRO_GROUPS) GROUPS = true) by (vm_compute; reflexivity).
  rewrite forallb_forall in Hall. specialize (Hall g Hg).
  rewrite forallb_forall in Hall. specialize (Hall mg Hmg).
  intros Hs. rewrite Hs in Hall. by apply String.eqb_eq.
Qed.

Lemma init_counts_keys : keys init_counts = GROUPS.
Proof. reflexivity. Qed.

Lemma init_counts_zero g : count_of init_counts g = 0.
Proof.
  unfold count_of, init_counts.
  induction GROUPS as [|k l IH]; simpl; [done|].
  by destruct (String.eqb k g).
Qed.

Lemma dict_get_count_of (d : dict nat) g :
  g ∈ keys d → dict_get d g = Some (count_of d g).
Proof.
  unfold count_of. induction d as [|[k w] d IH]; simpl.
  - intros H. by apply elem_of_nil in H.
  - intros H. destruct (String.eqb_spec k g) as [->|Hne]; [done|].
    apply elem_of_cons in H as [H|H]; [congruence|]. by apply IH.
Qed.

(** ** What an iteration leaves alone *)

Lemma grows_refl self : grows self self.
Proof. by split. Qed.

Lemma grows_trans self1 self2 self3 :
  grows self1 self2 → grows self2 self3 → grows self1 self3.
Proof.
  intros [R12 G12] [R23 G23]. split; [congruence|].
  intros j k s Hj Hs. apply G23; [|done]. by apply G12.
Qed.

Lemma grows_store_group i grp (self : DataBase) key student :
  self !! i = Some (key, student) → group student = None →
  grows self (store_group i grp self).
Proof.
  intros Hi Hg. split; [apply store_group_roster|].
  intros j k s Hj Hs. rewrite store_group_lookup_ne; [done|].
  intros ->. rewrite Hi in Hj. injection Hj as <- <-.
  rewrite Hg in Hs. by destruct Hs.
Qed.

Lemma body_spec_grows i self count_dict o :
  body_spec i self count_dict o →
  grows self (final_state o).1 ∧ keys (final_state o).2 = keys count_dict.
Proof.
  destruct 1 as [ | | | key student grp count1 Hi Hg Hmin Ha H1 Hc
                 | key student grp count1 cfn Hi Hg Hmin Ha H1 Hc Hf
                 | key student grp count1 count2 cfn j companion
                     Hi Hg Hmin Ha H1 Hc Hf Hgc H2 ]; simpl;
    try (split; [apply grows_refl|done]).
  - split; [by eapply grows_store_group|by eapply dict_incr_keys].
  - split; [by eapply grows_store_group|by eapply dict_incr_keys].
  - apply dict_find_Some in Hf as [Hj _]. split.
    + eapply grows_trans; by eapply grows_store_group.
    + rewrite (dict_incr_keys _ _ _ H2). by eapply dict_incr_keys.
Qed.

Lemma roster_lookup (self self' : DataBase) j key student' :
  roster self' = roster self → self' !! j = Some (key, student') →
  ∃ student, self !! j = Some (key, student) ∧
    erase_group student = erase_group student'.
Proof.
  unfold roster. intros HR Hj.
  assert (H : (map (λ kv, (kv.1, erase_group kv.2)) self) !! j
              = Some (key, erase_group student')).
  { rewrite <- HR. change (map ?f ?l) with (f <$> l).
    by rewrite list_lookup_fmap, Hj. }
  change (map ?f ?l) with (f <$> l) in H. rewrite list_lookup_fmap in H.
  destruct (self !! j) as [[k s]|]; simpl in H; [|done].
  apply (inj Some), pair_equal_spec in H as [-> Hs]. by exists s.
Qed.

Lemma erase_group_fields s s' :
  erase_group s = erase_group s' →
  macro_group s = macro_group s' ∧
  companion_full_name s = companion_full_name s' ∧
  full_name s = full_name s'.
Proof.
  destruct s, s'. unfold erase_group, companion_full_name, full_name. simpl.
  intros [= -> -> -> -> -> -> -> ->]. done.
Qed.

Lemma roster_length (self self' : DataBase) :
  roster self' = roster self → length self' = length self.
Proof.
  unfold roster. intros H. apply (f_equal length) in H.
  by rewrite !length_map in H.
Qed.

Lemma roster_keys (self self' : DataBase) :
  roster self' = roster self → keys self' = keys self.
Proof.
  unfold roster, keys. intros H.
  apply (f_equal (map fst)) in H. rewrite !map_map in H. done.
Qed.

(** ** The returned counters *)

Lemma counts_gain_step self0 i self count_dict st' :
  counts_gain self0 (self, count_dict) →
  body_spec i self count_dict (Returned st') →
  counts_gain self0 st'.
Proof.
  intros [Hk Hc] Hb. pose proof (body_spec_grows _ _ _ _ Hb) as [_ Hk'].
  split; [simpl in *; congruence|]. simpl in Hc.
  inversion Hb as [ | | | key student grp count1 Hi Hg Hmin Ha H1 Hcomp
                 |
                 | key student grp count1 count2 cfn j companion
                     Hi Hg Hmin Ha H1 Hcomp Hf Hgc H2 ]; subst; simpl; intros g.
  - apply Hc.
  - rewrite (store_group_occupancy _ _ _ _ _ _ Hi Hg).
    rewrite (dict_incr_get _ _ _ g H1). specialize (Hc g). lia.
  - apply dict_find_Some in Hf as [Hj _].
    rewrite (store_group_occupancy _ _ _ _ _ _ Hj Hgc).
    rewrite (store_group_occupancy _ _ _ _ _ _ Hi Hg).
    rewrite (dict_incr_get _ _ _ g H2), (dict_incr_get _ _ _ g H1).
    specialize (Hc g). lia.
Qed.

Lemma counts_gain_init self : counts_gain self (self, init_counts).
Proof.
  split; [apply init_counts_keys|]. intros g. simpl.
  by rewrite init_counts_zero.
Qed.

Lemma unassigned_occupancy self g : unassigned self → occupancy self g = 0.
Proof.
  unfold unassigned, occupancy. intros H.
  induction self as [|[k s] self IH]; [done|].
  rewrite filter_cons. simpl.
  rewrite decide_False.
  - apply IH. intros k' s' Hin. apply (H k' s'). by apply elem_of_cons; right.
  - rewrite (H k s) by (by apply elem_of_cons; left). done.
Qed.

Lemma assign_groups_gain self self' counts :
  assign_groups self = Returned (self', counts) →
  counts_gain self (self', counts).
Proof.
  unfold assign_groups. intros H.
  eapply (assign_loop_Returned (counts_gain self)); [|apply counts_gain_init|exact H].
  intros i s c st'. apply counts_gain_step.
Qed.

(** C8 (as amended). When [assign_groups] returns, the returned dictionary
    has the 24 leaf groups as its keys, in the order of [GROUPS], and the
    value of each is the number of students the call has put in that group:
    the occupancy at return less the occupancy before the call.  It is the
    occupancy at return when no student had a group before the call. *)
Theorem assign_groups_returns_gain self self' counts :
  assign_groups self = Returned (self', counts) →
  keys counts = GROUPS ∧
  ∀ grp, In grp GROUPS →
    ∃ n, dict_get counts grp = Some n ∧
         n + occupancy self grp = occupancy self' grp ∧
         (unassigned self → n = occupancy self' grp).
Proof.
  intros H. apply assign_groups_gain in H as [Hk Hc]. simpl in *.
  split; [done|]. intros grp Hin. exists (count_of counts grp). split_and!.
  - apply dict_get_count_of. rewrite Hk. by apply list_elem_of_In.
  - apply Hc.
  - intros Hu. specialize (Hc grp).
    rewrite (unassigned_occupancy _ _ Hu) in Hc. lia.
Qed.

Lemma assign_groups_returns_gain_witness :
  keys (final_state (assign_groups roster_pair)).2 = GROUPS ∧
  ∀ grp, In grp GROUPS →
    ∃ n, dict_get (final_state (assign_groups roster_pair)).2 grp = Some n ∧
         n + occupancy roster_pair grp
         = occupancy (final_state (assign_groups roster_pair)).1 grp ∧
         (unassigned roster_pair →
          n = occupancy (final_state (assign_groups roster_pair)).1 grp).
Proof.
  apply (assign_groups_returns_gain roster_pair). vm_compute. reflexivity.
Defined.

(** C8 (as stated) fails on a student who has a group before the call: the
    call returns 0 for "A1-1-1" although one student is in that group. *)
Lemma assign_groups_counts_preassigned :
  ∃ self' counts,
    assign_groups roster_preassigned = Returned (self', counts) ∧
    In "A1-1-1" GROUPS ∧
    dict_get counts "A1-1-1" = Some 0 ∧
    occupancy self' "A1-1-1" = 1 ∧
    dict_get counts "A1-1-1" ≠ Some (occupancy self' "A1-1-1").
Proof.
  eexists _, _. split; [vm_compute; reflexivity|].
  split_and!; [vm_compute; tauto|reflexivity|reflexivity|discriminate].
Qed.

(** ** Students that have a group keep it *)

Lemma assign_loop_grows positions st :
  grows st.1 (final_state (assign_loop positions st)).1.
Proof.
  revert st. induction positions as [|i rest IH]; intros [self cd];
    cbn [assign_loop]; [apply grows_refl|].
  pose proof (assign_body_spec i self cd) as Hb.
  apply body_spec_grows in Hb as [Hb _].
  destruct (assign_body i (self, cd)) as [st1|e st1]; [|exact Hb].
  eapply grows_trans; [exact Hb|apply IH].
Qed.

Lemma assign_body_assigned i (self : DataBase) count_dict :
  (∀ key student, self !! i = Some (key, student) → is_Some (group student)) →
  assign_body i (self, count_dict) = Returned (self, count_dict).
Proof.
  intros H. unfold assign_body.
  destruct (self !! i) as [[key student]|]; [|done].
  destruct (H key student eq_refl) as [g ->]. done.
Qed.

Lemma assign_loop_assigned positions (self : DataBase) count_dict :
  all_assigned self →
  assign_loop positions (self, count_dict) = Returned (self, count_dict).
Proof.
  intros H. induction positions as [|i rest IH]; cbn [assign_loop]; [done|].
  rewrite assign_body_assigned; [done|].
  intros key student Hi. apply (H key student).
  by eapply list_elem_of_lookup_2.
Qed.

(** After an iteration that returns, the student at its position has a
    group. *)
Lemma body_spec_here i self count_dict st' key student :
  body_spec i self count_dict (Returned st') →
  st'.1 !! i = Some (key, student) → is_Some (group student).
Proof.
  intros Hb. pose proof (body_spec_grows _ _ _ _ Hb) as [[HR _] _].
  inversion Hb as [ Hs | | | k s grp count1 Hi Hg Hmin Ha H1 Hcomp
                 |
                 | k s grp count1 count2 cfn j companion
                     Hi Hg Hmin Ha H1 Hcomp Hf Hgc H2 ]; subst; simpl.
  - apply Hs.
  - rewrite (store_group_lookup _ _ _ _ _ Hi). intros [= <- <-]. by eexists.
  - apply dict_find_Some in Hf as [Hj _].
    pose proof (grows_store_group j grp _ _ _ Hj Hgc) as [_ Hkeep].
    rewrite (Hkeep i k (set_group s grp)).
    + intros [= <- <-]. by eexists.
    + by apply store_group_lookup.
    + by eexists.
Qed.

Lemma assign_loop_seq_assigned n a st st' :
  assign_loop (seq a n) st = Returned st' →
  ∀ j key student, a ≤ j < a + n →
    st'.1 !! j = Some (key, student) → is_Some (group student).
Proof.
  revert a st. induction n as [|n IH]; intros a [self cd]; cbn [seq assign_loop].
  - intros _ j key student Hj. lia.
  - pose proof (assign_body_spec a self cd) as Hb.
    destruct (assign_body a (self, cd)) as [st1|] eqn:Hbody; [|done].
    intros Hloop j key student Hj Hlook.
    destruct (decide (j = a)) as [->|Hne]; [|eapply (IH (S a)); eauto; lia].
    pose proof (assign_loop_grows (seq (S a) n) st1) as [HR Hkeep].
    rewrite Hloop in HR, Hkeep. simpl in HR, Hkeep.
    destruct (roster_lookup _ _ _ _ _ HR Hlook) as (s1 & Hs1 & _).
    pose proof (body_spec_here _ _ _ _ _ _ Hb Hs1) as Hsome.
    rewrite (Hkeep _ _ _ Hs1 Hsome) in Hlook. by injection Hlook as <-.
Qed.

Lemma assign_groups_all_assigned self self' counts :
  assign_groups self = Returned (self', counts) → all_assigned self'.
Proof.
  unfold assign_groups. intros H key student Hin.
  apply list_elem_of_lookup_1 in Hin as [j Hj].
  eapply (assign_loop_seq_assigned _ _ _ _ H j); [|exact Hj].
  pose proof (assign_loop_grows (seq 0 (length self)) (self, init_counts)) as [HR _].
  rewrite H in HR. simpl in HR. apply roster_length in HR.
  apply lookup_lt_Some in Hj. lia.
Qed.

(** C4. A second call changes nothing: when a call of [assign_groups]
    returns, every student has a group, and calling it again returns with
    the very same students (so with the same group for each) and counts
    nobody; and no call, returning or raising, changes a student that has a
    group already. *)
Theorem assign_groups_idempotent self self' counts :
  assign_groups self = Returned (self', counts) →
  assign_groups self' = Returned (self', init_counts) ∧
  groups_of (final_state (assign_groups self')).1 = groups_of self' ∧
  (∀ database j key student,
     database !! j = Some (key, student) → is_Some (group student) →
     (final_state (assign_groups database)).1 !! j = Some (key, student)).
Proof.
  intros H. apply assign_groups_all_assigned in H.
  assert (H2 : assign_groups self' = Returned (self', init_counts))
    by (by apply assign_loop_assigned).
  split_and!; [done|by rewrite H2|].
  intros database j key student Hj Hs.
  by apply (assign_loop_grows (seq 0 (length database)) (database, init_counts)).
Qed.

Lemma assign_groups_idempotent_witness :
  assign_groups (final_state (assign_groups roster_third)).1
  = Returned ((final_state (assign_groups roster_third)).1, init_counts) ∧
  groups_of (final_state (assign_groups
               (final_state (assign_groups roster_third)).1)).1
  = groups_of (final_state (assign_groups roster_third)).1 ∧
  (∀ database j key student,
     database !! j = Some (key, student) → is_Some (group student) →
     (final_state (assign_groups database)).1 !! j = Some (key, student)).
Proof.
  apply (assign_groups_idempotent roster_third _
           (final_state (assign_groups roster_third)).2).
  vm_compute. reflexivity.
Defined.

(** ** The groups that are given *)

Lemma placed_ok_store i grp (self : DataBase) key student :
  placed_ok self →
  self !! i = Some (key, student) → group student = None →
  In grp GROUPS →
  (py_slice_to 2 grp = macro_group student ∨
   ∃ p kt t, self !! p = Some (kt, t) ∧
     companion_full_name t = Some key ∧ group t = Some grp ∧
     py_slice_to 2 grp = macro_group t) →
  placed_ok (store_group i grp self).
Proof.
  intros Hok Hi Hg Hin Hwhy j k s g Hj Hs.
  pose proof (grows_store_group i grp _ _ _ Hi Hg) as [_ Hkeep].
  assert (Hright : ∀ k0 g0,
    (∃ p kt t, self !! p = Some (kt, t) ∧
       companion_full_name t = Some k0 ∧ group t = Some g0 ∧
       py_slice_to 2 g0 = macro_group t) →
    ∃ p kt t, store_group i grp self !! p = Some (kt, t) ∧
       companion_full_name t = Some k0 ∧ group t = Some g0 ∧
       py_slice_to 2 g0 = macro_group t).
  { intros k0 g0 (p & kt & t & Hp & Hc & Hgt & Hsl). exists p, kt, t.
    split_and!; try done. apply Hkeep; [done|]. rewrite Hgt. by eexists. }
  destruct (decide (j = i)) as [->|Hne].
  - rewrite (store_group_lookup _ _ _ _ _ Hi) in Hj.
    apply (inj Some), pair_equal_spec in Hj as [<- <-].
    simpl in Hs. injection Hs as <-. split; [done|].
    destruct Hwhy as [Hl|Hr]; [by left|right; by apply Hright].
  - rewrite store_group_lookup_ne in Hj by done.
    destruct (Hok _ _ _ _ Hj Hs) as [HG [Hl|Hr]].
    + split; [done|by left].
    + split; [done|right; by apply Hright].
Qed.

Lemma placed_ok_step i self count_dict st' :
  keys count_dict = GROUPS ∧ placed_ok self →
  body_spec i self count_dict (Returned st') →
  keys st'.2 = GROUPS ∧ placed_ok st'.1.
Proof.
  intros [Hk Hok] Hb. pose proof (body_spec_grows _ _ _ _ Hb) as [_ Hk'].
  split; [simpl in *; congruence|].
  inversion Hb as [ | | | key student grp count1 Hi Hg Hmin Ha H1 Hcomp
                 |
                 | key student grp count1 count2 cfn j companion
                     Hi Hg Hmin Ha H1 Hcomp Hf Hgc H2 ]; subst; simpl;
    [done|..];
    (assert (Hin : In grp GROUPS)
      by (apply min_group_elem in Hmin as [Hin _];
          rewrite Hk in Hin; by apply list_elem_of_In)).
  - eapply placed_ok_store; eauto.
  - apply dict_find_Some in Hf as [Hj _].
    eapply placed_ok_store; [eapply placed_ok_store; eauto|exact Hj|done..|].
    right. exists i, key, (set_group student grp). split_and!.
    + by apply store_group_lookup.
    + exact Hcomp.
    + done.
    + exact Ha.
Qed.

Lemma unassigned_placed_ok self : unassigned self → placed_ok self.
Proof.
  intros Hu j key student grp Hj Hg.
  rewrite (Hu key student) in Hg; [done|]. by eapply list_elem_of_lookup_2.
Qed.

(** C1 (as amended). When no student has a group before the call and
    [assign_groups] returns, every student has a group, which is one of the
    24 leaf groups; its first two characters are the student's macro group,
    or the macro group of a student of the same group who names this student
    as companion. *)
Theorem assign_groups_all_placed self self' counts :
  unassigned self →
  assign_groups self = Returned (self', counts) →
  ∀ key student, (key, student) ∈ self' →
    ∃ grp, group student = Some grp ∧ In grp GROUPS ∧
      (py_slice_to 2 grp = macro_group student ∨
       ∃ kt t, (kt, t) ∈ self' ∧
         companion_full_name t = Some key ∧ group t = Some grp ∧
         py_slice_to 2 grp = macro_group t).
Proof.
  intros Hu H key student Hin.
  destruct (assign_groups_all_assigned _ _ _ H key student Hin) as [grp Hg].
  assert (Hinv : keys counts = GROUPS ∧ placed_ok self').
  { unfold assign_groups in H.
    refine (assign_loop_Returned (λ st, keys st.2 = GROUPS ∧ placed_ok st.1)
              _ _ _ (self', counts) _ H).
    - intros i s c st'. apply placed_ok_step.
    - split; [apply init_counts_keys|by apply unassigned_placed_ok]. }
  destruct Hinv as [_ Hok].
  apply list_elem_of_lookup_1 in Hin as [j Hj].
  destruct (Hok _ _ _ _ Hj Hg) as [HG Hwhy].
  exists grp. split_and!; [done..|].
  destruct Hwhy as [Hl|(p & kt & t & Hp & Hr)]; [by left|].
  right. exists kt, t. split; [by eapply list_elem_of_lookup_2|done].
Qed.

Lemma assign_groups_all_placed_witness :
  ∃ grp, group (set_group (bob "B1") "A1-1-1") = Some grp ∧ In grp GROUPS ∧
    (py_slice_to 2 grp = macro_group (set_group (bob "B1") "A1-1-1") ∨
     ∃ kt t, (kt, t) ∈ (final_state (assign_groups roster_cross)).1 ∧
       companion_full_name t = Some "Bob Bianchi" ∧ group t = Some grp ∧
       py_slice_to 2 grp = macro_group t).
Proof.
  apply (assign_groups_all_placed roster_cross
           (final_state (assign_groups roster_cross)).1
           (final_state (assign_groups roster_cross)).2).
  - intros key student Hin. vm_compute in Hin.
    repeat (apply elem_of_cons in Hin as [[= -> ->]|Hin]; [reflexivity|]).
    by apply elem_of_nil in Hin.
  - vm_compute. reflexivity.
  - apply elem_of_cons. right. apply elem_of_cons. left. reflexivity.
Defined.

(** C1 (as stated) fails when companions are in different macro groups:
    Bob, of macro group B1, is put in Alice's group "A1-1-1". *)
Lemma assign_groups_cross_group :
  ∃ self' counts student,
    assign_groups roster_cross = Returned (self', counts) ∧
    ("Bob Bianchi", student) ∈ self' ∧
    macro_group student = "B1" ∧
    group student = Some "A1-1-1" ∧
    py_slice_to 2 "A1-1-1" ≠ macro_group student.
Proof.
  eexists _, _, _. split; [vm_compute; reflexivity|].
  split_and!.
  - apply elem_of_cons. right. apply elem_of_cons. left. reflexivity.
  - reflexivity.
  - reflexivity.
  - discriminate.
Qed.

(** ** The selection *)

Lemma companion_full_name_None s :
  companion_full_name s = None →
  companion_name s = None ∧ companion_surname s = None.
Proof.
  unfold companion_full_name.
  by destruct (companion_name s), (companion_surname s).
Qed.

Lemma unpaired_shape s mg :
  macro_group s = mg → companion_full_name s = None → group s = None →
  s = mkStudent (name s) (surname s) (identifier s) (email s) mg
                None None (notes s) None.
Proof.
  intros Hm Hc Hg. apply companion_full_name_None in Hc as [Hc1 Hc2].
  destruct s. simpl in *. by subst.
Qed.

(** C3. For a student without a group whose macro group is one of the
    four, the iteration selects among the 6 leaf groups that start with the
    macro group: the selected group has the least counter, every candidate
    before it in the order of [GROUPS] has a strictly larger counter, and
    the student gets the selected group.  Four students without companions
    who all declare A1 get, in iteration order, A1-1-1, A1-1-2, A1-2-1 and
    A1-2-2. *)
Theorem assign_body_selects_min :
  (∀ (self : DataBase) (count_dict : dict nat) i key student,
     keys count_dict = GROUPS →
     self !! i = Some (key, student) → group student = None →
     In (macro_group student) MACRO_GROUPS →
     ∃ grp pre post,
       candidates (macro_group student) = pre ++ grp :: post ∧
       length (candidates (macro_group student)) = 6 ∧
       (∀ g, g ∈ pre → count_of count_dict grp < count_of count_dict g) ∧
       (∀ g, g ∈ post → count_of count_dict grp ≤ count_of count_dict g) ∧
       (final_state (assign_body i (self, count_dict))).1 !! i
       = Some (key, set_group student grp)) ∧
  (∀ k1 k2 k3 k4 s1 s2 s3 s4,
     Forall (λ s, macro_group s = "A1" ∧ companion_full_name s = None ∧
                  group s = None) [s1; s2; s3; s4] →
     ∃ self' counts,
       assign_groups [(k1, s1); (k2, s2); (k3, s3); (k4, s4)]
       = Returned (self', counts) ∧
       groups_of self'
       = [Some "A1-1-1"; Some "A1-1-2"; Some "A1-2-1"; Some "A1-2-2"]).
Proof.
  split.
  - intros self count_dict i key student Hk Hi Hg Hmg.
    pose proof (candidates_length _ Hmg) as Hlen.
    pose proof (assign_body_spec i self count_dict) as Hb.
    remember (assign_body i (self, count_dict)) as o eqn:Ho. clear Ho.
    assert (Hsel : ∀ grp,
      min_group (dict_subset count_dict (macro_group student)) = Some grp →
      ∃ pre post,
        candidates (macro_group student) = pre ++ grp :: post ∧
        length (candidates (macro_group student)) = 6 ∧
        (∀ g, g ∈ pre → count_of count_dict grp < count_of count_dict g) ∧
        (∀ g, g ∈ post → count_of count_dict grp ≤ count_of count_dict g)).
    { intros grp Hmin. apply min_group_Some in Hmin as (pre & post & Hl & H1 & H2).
      rewrite Hk in Hl. exists pre, post. done. }
    destruct Hb as [ Hs | k s Hi' Hg' Hmin | k s grp Hi' Hg' Hmin Ha
                   | k s grp count1 Hi' Hg' Hmin Ha H1 Hcomp
                   | k s grp count1 cfn Hi' Hg' Hmin Ha H1 Hcomp Hf
                   | k s grp count1 count2 cfn j companion
                       Hi' Hg' Hmin Ha H1 Hcomp Hf Hgc H2 ];
      try (rewrite Hi in Hi'; injection Hi' as <- <-).
    + destruct (Hs _ _ Hi) as [g Hsome]. congruence.
    + apply min_group_None in Hmin. rewrite Hk in Hmin.
      unfold candidates in Hlen. by rewrite Hmin in Hlen.
    + exfalso. apply Ha. apply min_group_elem in Hmin as [Hin Hst].
      rewrite Hk in Hin. apply startswith_slice; [by apply list_elem_of_In|done..].
    + destruct (Hsel _ Hmin) as (pre & post & ?). exists grp, pre, post.
      simpl. rewrite (store_group_lookup _ _ _ _ _ Hi). by destruct_and!.
    + destruct (Hsel _ Hmin) as (pre & post & ?). exists grp, pre, post.
      simpl. rewrite (store_group_lookup _ _ _ _ _ Hi). by destruct_and!.
    + destruct (Hsel _ Hmin) as (pre & post & ?). exists grp, pre, post.
      simpl. apply dict_find_Some in Hf as [Hj _].
      pose proof (grows_store_group j grp _ _ _ Hj Hgc) as [_ Hkeep].
      rewrite (Hkeep i key (set_group student grp));
        [by destruct_and!|by apply store_group_lookup|by eexists].
  - intros k1 k2 k3 k4 s1 s2 s3 s4 Hall.
    apply Forall_cons in Hall as [(M1 & C1 & G1) Hall].
    apply Forall_cons in Hall as [(M2 & C2 & G2) Hall].
    apply Forall_cons in Hall as [(M3 & C3 & G3) Hall].
    apply Forall_cons in Hall as [(M4 & C4 & G4) _].
    rewrite (unpaired_shape s1 _ M1 C1 G1), (unpaired_shape s2 _ M2 C2 G2),
      (unpaired_shape s3 _ M3 C3 G3), (unpaired_shape s4 _ M4 C4 G4).
    eexists _, _. split; vm_compute; reflexivity.
Qed.

Lemma assign_body_selects_min_witness :
  (∃ grp pre post,
     candidates "B2" = pre ++ grp :: post ∧
     length (candidates "B2") = 6 ∧
     (∀ g, g ∈ pre → count_of init_counts grp < count_of init_counts g) ∧
     (∀ g, g ∈ post → count_of init_counts grp ≤ count_of init_counts g) ∧
     (final_state (assign_body 0 (roster_pair, init_counts))).1 !! 0
     = Some ("Alice Rossi", set_group (alice "B2" None) grp)) ∧
  (∃ self' counts,
     assign_groups [("Dora Neri", single "Dora" "A1" None);
                    ("Elio Neri", single "Elio" "A1" None);
                    ("Fabio Neri", single "Fabio" "A1" None);
                    ("Gina Neri", single "Gina" "A1" None)]
     = Returned (self', counts) ∧
     groups_of self'
     = [Some "A1-1-1"; Some "A1-1-2"; Some "A1-2-1"; Some "A1-2-2"]).
Proof.
  split.
  - apply (proj1 assign_body_selects_min roster_pair init_counts 0
             "Alice Rossi" (alice "B2" None)).
    + reflexivity.
    + reflexivity.
    + reflexivity.
    + simpl. tauto.
  - apply (proj2 assign_body_selects_min).
    repeat constructor.
Defined.

(** ** Balance *)

Lemma min_group_le count_dict mg grp g :
  min_group (dict_subset count_dict mg) = Some grp →
  g ∈ filter (λ g, startswith g mg = true) (keys count_dict) →
  count_of count_dict grp ≤ count_of count_dict g.
Proof.
  intros Hmin Hg. apply min_group_Some in Hmin as (pre & post & Hl & Hpre & Hpost).
  rewrite Hl in Hg. apply elem_of_app in Hg as [Hg|Hg].
  - specialize (Hpre g Hg). lia.
  - apply elem_of_cons in Hg as [->|Hg]; [done|by apply Hpost].
Qed.

Lemma balanced_add count_dict count_dict' grp mg bound k :
  keys count_dict = GROUPS → balanced count_dict bound →
  min_group (dict_subset count_dict mg) = Some grp →
  py_slice_to 2 grp = mg →
  (∀ g, count_of count_dict' g
        = count_of count_dict g + (if decide (g = grp) then k else 0)) →
  balanced count_dict' (bound `max` k).
Proof.
  intros Hk Hbal Hmin Ha Hadd mg' g1 g2 Hmg' H1 H2.
  rewrite (Hadd g1), (Hadd g2). specialize (Hbal mg' g1 g2 Hmg' H1 H2).
  destruct (decide (g1 = grp)) as [->|Hne]; [|lia].
  assert (Hle : count_of count_dict grp ≤ count_of count_dict g2); [|lia].
  assert (mg' = mg) as ->.
  { rewrite <- Ha. symmetry. apply startswith_slice; [|done|].
    - by eapply candidates_GROUPS.
    - apply list_elem_of_In in H1. by apply list_elem_of_filter in H1 as [? _]. }
  eapply min_group_le; [exact Hmin|]. rewrite Hk. by apply list_elem_of_In.
Qed.

Lemma balanced_step i self count_dict self' count_dict' bound :
  keys count_dict = GROUPS → balanced count_dict bound →
  body_spec i self count_dict (Returned (self', count_dict')) →
  keys count_dict' = GROUPS ∧
  balanced count_dict' (bound `max` (assigned self' - assigned self)).
Proof.
  intros Hk Hbal Hb. pose proof (body_spec_grows _ _ _ _ Hb) as [_ Hk'].
  split; [simpl in *; congruence|].
  inversion Hb as [ | | | key student grp count1 Hi Hg Hmin Ha H1 Hcomp
                 |
                 | key student grp count1 count2 cfn j companion
                     Hi Hg Hmin Ha H1 Hcomp Hf Hgc H2 ]; subst.
  - by rewrite Nat.sub_diag, Nat.max_0_r.
  - rewrite (store_group_assigned _ _ _ _ _ Hi Hg).
    replace (S (assigned self) - assigned self) with 1 by lia.
    eapply balanced_add; eauto. intros g. by apply dict_incr_get.
  - apply dict_find_Some in Hf as [Hj _].
    rewrite (store_group_assigned _ _ _ _ _ Hj Hgc).
    rewrite (store_group_assigned _ _ _ _ _ Hi Hg).
    replace (S (S (assigned self)) - assigned self) with 2 by lia.
    eapply balanced_add; eauto. intros g.
    rewrite (dict_incr_get _ _ _ g H2), (dict_incr_get _ _ _ g H1).
    destruct (decide (g = grp)); lia.
Qed.

Lemma assign_loop_balanced positions self count_dict self' count_dict' bound :
  keys count_dict = GROUPS → balanced count_dict bound →
  assign_loop positions (self, count_dict) = Returned (self', count_dict') →
  balanced count_dict'
    (bound `max` max_list (unit_sizes positions (self, count_dict))).
Proof.
  revert self count_dict bound.
  induction positions as [|i rest IH]; intros self cd bound Hk Hbal;
    cbn [assign_loop unit_sizes].
  - intros [= <- <-]. simpl. by rewrite Nat.max_0_r.
  - pose proof (assign_body_spec i self cd) as Hb.
    destruct (assign_body i (self, cd)) as [[self1 cd1]|]; [|done].
    intros Hloop. destruct (balanced_step _ _ _ _ _ _ Hk Hbal Hb) as [Hk1 Hbal1].
    specialize (IH _ _ _ Hk1 Hbal1 Hloop).
    cbn [final_state fst max_list]. by rewrite Nat.max_assoc.
Qed.

Lemma body_spec_unit i self count_dict o :
  body_spec i self count_dict o →
  assigned (final_state o).1 - assigned self ≤ 2.
Proof.
  destruct 1 as [ | | | key student grp count1 Hi Hg Hmin Ha H1 Hc
                 | key student grp count1 cfn Hi Hg Hmin Ha H1 Hc Hf
                 | key student grp count1 count2 cfn j companion
                     Hi Hg Hmin Ha H1 Hc Hf Hgc H2 ]; simpl; try lia.
  - rewrite (store_group_assigned _ _ _ _ _ Hi Hg). lia.
  - rewrite (store_group_assigned _ _ _ _ _ Hi Hg). lia.
  - apply dict_find_Some in Hf as [Hj _].
    rewrite (store_group_assigned _ _ _ _ _ Hj Hgc).
    rewrite (store_group_assigned _ _ _ _ _ Hi Hg). lia.
Qed.

Lemma unit_sizes_le positions st : max_list (unit_sizes positions st) ≤ 2.
Proof.
  revert st. induction positions as [|i rest IH]; intros [self cd];
    cbn [unit_sizes max_list]; [lia|].
  pose proof (body_spec_unit _ _ _ _ (assign_body_spec i self cd)) as Hu.
  destruct (assign_body i (self, cd)) as [st1|e st1].
  - specialize (IH st1). simpl in *. lia.
  - simpl in *. lia.
Qed.

Lemma balanced_init : balanced init_counts 0.
Proof. intros mg g1 g2 _ _ _. rewrite !init_counts_zero. lia. Qed.

(** C9. When [assign_groups] returns, the counters of the leaf groups of
    one macro group differ by at most the size of the largest unit (a
    single student, or a student with the companion) that the run has
    placed by one selection, which is at most 2; when no student had a
    group before the call, so do the numbers of students in these groups. *)
Theorem assign_groups_balanced self self' counts :
  assign_groups self = Returned (self', counts) →
  largest_unit self ≤ 2 ∧
  ∀ mg g1 g2,
    In mg MACRO_GROUPS → In g1 (candidates mg) → In g2 (candidates mg) →
    count_of counts g1 ≤ count_of counts g2 + largest_unit self ∧
    (unassigned self →
     occupancy self' g1 ≤ occupancy self' g2 + largest_unit self).
Proof.
  intros H. unfold largest_unit. split; [apply unit_sizes_le|].
  intros mg g1 g2 Hmg H1 H2.
  pose proof (assign_loop_balanced _ _ _ _ _ 0 init_counts_keys balanced_init H)
    as Hbal.
  rewrite Nat.max_0_l in Hbal. specialize (Hbal mg g1 g2 Hmg H1 H2).
  split; [exact Hbal|]. intros Hu.
  apply assign_groups_gain in H as [_ Hc]. simpl in Hc.
  pose proof (Hc g1) as Hc1. pose proof (Hc g2) as Hc2.
  rewrite (unassigned_occupancy _ g1 Hu) in Hc1.
  rewrite (unassigned_occupancy _ g2 Hu) in Hc2. lia.
Qed.

Lemma assign_groups_balanced_witness :
  largest_unit roster_third ≤ 2 ∧
  ∀ mg g1 g2,
    In mg MACRO_GROUPS → In g1 (candidates mg) → In g2 (candidates mg) →
    count_of (final_state (assign_groups roster_third)).2 g1
    ≤ count_of (final_state (assign_groups roster_third)).2 g2
      + largest_unit roster_third ∧
    (unassigned roster_third →
     occupancy (final_state (assign_groups roster_third)).1 g1
     ≤ occupancy (final_state (assign_groups roster_third)).1 g2
       + largest_unit roster_third).
Proof.
  apply (assign_groups_balanced roster_third). vm_compute. reflexivity.
Defined.

(** ** Companions *)

Section Pair.

Variables (self0 : DataBase) (a b : nat) (sa sb : Student).
Hypothesis keys_NoDup : NoDup (keys self0).
Hypothesis distinct : a ≠ b.
Hypothesis sa_names_sb : companion_full_name sa = Some (full_name sb).
Hypothesis sb_names_sa : companion_full_name sb = Some (full_name sa).
Hypothesis sa_free : group sa = None.
Hypothesis sb_free : group sb = None.
Hypothesis nobody_else : no_third a b sa sb self0.

Lemma pair_step i self count_dict st' :
  roster self = roster self0 ∧ pair_state a b sa sb self →
  body_spec i self count_dict (Returned st') →
  roster st'.1 = roster self0 ∧ pair_state a b sa sb st'.1.
Proof.
  intros [HR Hst] Hb.
  pose proof (body_spec_grows _ _ _ _ Hb) as [[HR' Hkeep] _].
  simpl in HR', Hkeep. split; [congruence|].
  destruct Hst as [[Ha Hb0]|(grp0 & Ha & Hb0)].
  2:{ right. exists grp0. split; apply Hkeep; try done; by eexists. }
  assert (Hnd : ∀ j grp, NoDup (keys (store_group j grp self))).
  { intros j grp. rewrite (roster_keys self0); [done|].
    by rewrite store_group_roster. }
  assert (Hthird : ∀ c key student, self !! c = Some (key, student) →
            c ≠ a → c ≠ b →
            companion_full_name student ≠ Some (full_name sa) ∧
            companion_full_name student ≠ Some (full_name sb)).
  { intros c key student Hc Hca Hcb.
    destruct (roster_lookup _ _ _ _ _ HR Hc) as (s0 & Hs0 & He).
    apply erase_group_fields in He as (_ & <- & _).
    by apply (nobody_else c key s0). }
  inversion Hb as [ | | | key student grp count1 Hi Hg Hmin Has H1 Hcomp
                 |
                 | key student grp count1 count2 cfn j companion
                     Hi Hg Hmin Has H1 Hcomp Hf Hgc H2 ]; subst; simpl.
  - by left.
  - (* the student is placed alone *)
    destruct (decide (i = a)) as [->|Hia].
    { exfalso. rewrite Ha in Hi. injection Hi as <- <-.
      destruct Hcomp as [Hn|(cfn & j & companion & Hc & Hf & Hsome)];
        [congruence|].
      rewrite sa_names_sb in Hc. injection Hc as <-.
      rewrite (dict_find_lookup _ _ b sb (Hnd _ _)) in Hf
        by (by rewrite store_group_lookup_ne).
      injection Hf as <- <-. rewrite sb_free in Hsome. by destruct Hsome. }
    destruct (decide (i = b)) as [->|Hib].
    { exfalso. rewrite Hb0 in Hi. injection Hi as <- <-.
      destruct Hcomp as [Hn|(cfn & j & companion & Hc & Hf & Hsome)];
        [congruence|].
      rewrite sb_names_sa in Hc. injection Hc as <-.
      rewrite (dict_find_lookup _ _ a sa (Hnd _ _)) in Hf
        by (by rewrite store_group_lookup_ne).
      injection Hf as <- <-. rewrite sa_free in Hsome. by destruct Hsome. }
    left. by rewrite !store_group_lookup_ne.
  - (* the student is placed with the companion *)
    destruct (decide (i = a)) as [->|Hia].
    { rewrite Ha in Hi. injection Hi as <- <-.
      rewrite sa_names_sb in Hcomp. injection Hcomp as <-.
      rewrite (dict_find_lookup _ _ b sb (Hnd _ _)) in Hf
        by (by rewrite store_group_lookup_ne).
      injection Hf as <- <-. right. exists grp. split.
      - rewrite store_group_lookup_ne by done. by apply store_group_lookup.
      - apply store_group_lookup. by rewrite store_group_lookup_ne. }
    destruct (decide (i = b)) as [->|Hib].
    { rewrite Hb0 in Hi. injection Hi as <- <-.
      rewrite sb_names_sa in Hcomp. injection Hcomp as <-.
      rewrite (dict_find_lookup _ _ a sa (Hnd _ _)) in Hf
        by (by rewrite store_group_lookup_ne).
      injection Hf as <- <-. right. exists grp. split.
      - apply store_group_lookup. by rewrite store_group_lookup_ne.
      - rewrite store_group_lookup_ne by done. by apply store_group_lookup. }
    destruct (Hthird _ _ _ Hi Hia Hib) as [Hna Hnb].
    apply dict_find_Some in Hf as [Hj _].
    assert (j ≠ a).
    { intros ->. rewrite store_group_lookup_ne, Ha in Hj by done. congruence. }
    assert (j ≠ b).
    { intros ->. rewrite store_group_lookup_ne, Hb0 in Hj by done. congruence. }
    left. by rewrite !store_group_lookup_ne.
Qed.

Lemma pair_together self' counts :
  self0 !! a = Some (full_name sa, sa) →
  self0 !! b = Some (full_name sb, sb) →
  assign_groups self0 = Returned (self', counts) →
  ∃ grp, self' !! a = Some (full_name sa, set_group sa grp) ∧
         self' !! b = Some (full_name sb, set_group sb grp).
Proof.
  intros Ha Hb0 H.
  pose proof (assign_groups_all_assigned _ _ _ H) as Hall.
  unfold assign_groups in H.
  assert (Hinv : roster self' = roster self0 ∧ pair_state a b sa sb self').
  { refine (assign_loop_Returned
              (λ st, roster st.1 = roster self0 ∧ pair_state a b sa sb st.1)
              _ _ _ (self', counts) _ H).
    - intros i s c st'. apply pair_step.
    - split; [done|]. by left. }
  destruct Hinv as [_ [[Ha' _]|Hdone]]; [|done].
  apply list_elem_of_lookup_2, Hall in Ha'. rewrite sa_free in Ha'.
  by destruct Ha'.
Qed.

End Pair.

(** C5 (as amended). Two students without a group who name each other as
    companions, declare the same macro group, and are named by nobody
    else, are in one and the same group when [assign_groups] returns.  For
    Alice Rossi and Bob Bianchi of B2 alone in the database, both get
    B2-1-1, whose counter is 2, and the other counters of B2 are 0. *)
Theorem companions_together :
  (∀ (self : DataBase) a b sa sb self' counts,
     NoDup (keys self) → a ≠ b →
     self !! a = Some (full_name sa, sa) →
     self !! b = Some (full_name sb, sb) →
     companion_full_name sa = Some (full_name sb) →
     companion_full_name sb = Some (full_name sa) →
     macro_group sa = macro_group sb →
     group sa = None → group sb = None →
     no_third a b sa sb self →
     assign_groups self = Returned (self', counts) →
     ∃ grp, self' !! a = Some (full_name sa, set_group sa grp) ∧
            self' !! b = Some (full_name sb, set_group sb grp)) ∧
  (∃ self' counts,
     assign_groups roster_pair = Returned (self', counts) ∧
     groups_of self' = [Some "B2-1-1"; Some "B2-1-1"] ∧
     count_of counts "B2-1-1" = 2 ∧
     ∀ g, In g (candidates "B2") → g ≠ "B2-1-1" → count_of counts g = 0).
Proof.
  split.
  - intros self a b sa sb self' counts Hnd Hab Ha Hb Hsa Hsb _ Hga Hgb Hno H.
    by eapply pair_together.
  - eexists _, _. split; [vm_compute; reflexivity|].
    split_and!; [reflexivity..|].
    intros g Hg Hne. vm_compute in Hg.
    repeat (destruct Hg as [<-|Hg]; [try reflexivity; by destruct Hne|]).
    destruct Hg.
Qed.

Lemma companions_together_witness :
  ∃ grp,
    (final_state (assign_groups roster_pair)).1 !! 0
    = Some (full_name (alice "B2" None), set_group (alice "B2" None) grp) ∧
    (final_state (assign_groups roster_pair)).1 !! 1
    = Some (full_name (bob "B2"), set_group (bob "B2") grp).
Proof.
  apply (proj1 companions_together roster_pair 0 1 (alice "B2" None) (bob "B2")
           _ (final_state (assign_groups roster_pair)).2).
  - apply (bool_decide_unpack _). vm_compute. exact I.
  - lia.
  - reflexivity.
  - reflexivity.
  - reflexivity.
  - reflexivity.
  - reflexivity.
  - reflexivity.
  - reflexivity.
  - intros [|[|c]] key student Hc Ha Hb; [lia|lia|discriminate Hc].
  - vm_compute. reflexivity.
Defined.

(** C5 (as stated) fails when a third student names one of the two: Carl
    names Alice and takes her into his group before Bob, who names her and
    whom she names, gets his own. *)
Lemma companions_apart :
  ∃ self' counts sa sb,
    assign_groups roster_third = Returned (self', counts) ∧
    self' !! 1 = Some ("Alice Rossi", sa) ∧
    self' !! 2 = Some ("Bob Bianchi", sb) ∧
    companion_full_name sa = Some (full_name sb) ∧
    companion_full_name sb = Some (full_name sa) ∧
    macro_group sa = macro_group sb ∧
    group sa = Some "A1-1-1" ∧ group sb = Some "A1-1-2" ∧
    group sa ≠ group sb.
Proof.
  eexists _, _, _, _. split; [vm_compute; reflexivity|].
  split_and!; [reflexivity..|discriminate].
Qed.

(** ** What can be raised *)

Lemma select_valid (count_dict : dict nat) mg :
  keys count_dict = GROUPS → In mg MACRO_GROUPS →
  ∃ grp, min_group (dict_subset count_dict mg) = Some grp ∧
         py_slice_to 2 grp = mg ∧
         length (dict_subset count_dict mg) = 6.
Proof.
  intros Hk Hmg. pose proof (candidates_length _ Hmg) as Hlen.
  assert (Hl6 : length (dict_subset count_dict mg) = 6).
  { rewrite <- (length_map fst). change (map fst ?d) with (keys d).
    by rewrite keys_subset, Hk. }
  destruct (min_group (dict_subset count_dict mg)) as [grp|] eqn:Hmin.
  - exists grp. split_and!; [done| |done].
    apply min_group_elem in Hmin as [Hin Hst]. rewrite Hk in Hin.
    apply startswith_slice; [by apply list_elem_of_In|done..].
  - apply min_group_None in Hmin. rewrite Hk in Hmin.
    unfold candidates in Hlen. by rewrite Hmin in Hlen.
Qed.

Lemma body_spec_Raised_valid self0 i self count_dict e st' :
  keys count_dict = GROUPS → roster self = roster self0 →
  valid_groups self0 →
  body_spec i self count_dict (Raised e st') →
  ∃ key student cfn, (key, student) ∈ self0 ∧
    companion_full_name student = Some cfn ∧ (cfn ∉ keys self0) ∧
    e = KeyError cfn.
Proof.
  intros Hk HR Hvalid Hb.
  assert (Hmg : ∀ key student, self !! i = Some (key, student) →
            ∃ s0, (key, s0) ∈ self0 ∧ macro_group s0 = macro_group student ∧
                  companion_full_name s0 = companion_full_name student).
  { intros key student Hi.
    destruct (roster_lookup _ _ _ _ _ HR Hi) as (s0 & Hs0 & He).
    apply erase_group_fields in He as (? & ? & _).
    exists s0. split; [by eapply list_elem_of_lookup_2|done]. }
  inversion Hb as [ | key student Hi Hg Hmin | key student grp Hi Hg Hmin Ha
                 |
                 | key student grp count1 cfn Hi Hg Hmin Ha H1 Hcomp Hf
                 | ]; subst.
  - destruct (Hmg _ _ Hi) as (s0 & Hin & Hm & _).
    destruct (select_valid count_dict (macro_group student) Hk) as (grp & Hsel & _).
    { rewrite <- Hm. by eapply Hvalid. }
    congruence.
  - destruct (Hmg _ _ Hi) as (s0 & Hin & Hm & _).
    destruct (select_valid count_dict (macro_group student) Hk) as (grp' & Hsel & Hs & _).
    { rewrite <- Hm. by eapply Hvalid. }
    congruence.
  - destruct (Hmg _ _ Hi) as (s0 & Hin & _ & Hc).
    exists key, s0, cfn. split_and!; [done|congruence| |done].
    apply dict_find_None in Hf.
    rewrite (roster_keys self0) in Hf; [done|]. by rewrite store_group_roster.
Qed.

Lemma valid_step self0 i self count_dict st' :
  keys count_dict = GROUPS ∧ roster self = roster self0 →
  body_spec i self count_dict (Returned st') →
  keys st'.2 = GROUPS ∧ roster st'.1 = roster self0.
Proof.
  intros [Hk HR] Hb. apply body_spec_grows in Hb as [[HR' _] Hk'].
  simpl in *. split; congruence.
Qed.

Lemma assign_loop_total self0 positions self count_dict :
  valid_groups self0 → companions_present self0 →
  keys count_dict = GROUPS → roster self = roster self0 →
  ∃ st', assign_loop positions (self, count_dict) = Returned st'.
Proof.
  intros Hvalid Hpresent. revert self count_dict.
  induction positions as [|i rest IH]; intros self cd Hk HR;
    cbn [assign_loop]; [by eexists|].
  pose proof (assign_body_spec i self cd) as Hb.
  destruct (assign_body i (self, cd)) as [[self1 cd1]|e st1].
  - destruct (valid_step self0 _ _ _ _ (conj Hk HR) Hb) as [Hk1 HR1].
    by apply IH.
  - destruct (body_spec_Raised_valid self0 _ _ _ _ _ Hk HR Hvalid Hb)
      as (key & student & cfn & Hin & Hc & Hnot & _).
    exfalso. apply Hnot. by eapply Hpresent.
Qed.

(** C10. Under the condition that every student declares one of the four
    macro groups, the selection has 6 candidates, finds a group and passes
    the assertion, so [assign_groups] raises neither [ValueError] nor
    [AssertionError]: what it can raise is the [KeyError] of a companion
    who is named and is not in the database, and it returns when every
    named companion is there.  The condition is not checked when a student
    is built: Dora, who declares C1, is built with an error logged, and on
    the database holding her [assign_groups] raises the [ValueError] of
    [min] over no candidate. *)
Theorem assign_groups_total_on_valid_groups :
  (∀ (count_dict : dict nat) mg,
     keys count_dict = GROUPS → In mg MACRO_GROUPS →
     ∃ grp, min_group (dict_subset count_dict mg) = Some grp ∧
            py_slice_to 2 grp = mg ∧
            length (dict_subset count_dict mg) = 6) ∧
  (∀ self,
     valid_groups self →
     (∀ e st, assign_groups self = Raised e st →
        ∃ key student cfn, (key, student) ∈ self ∧
          companion_full_name student = Some cfn ∧ (cfn ∉ keys self) ∧
          e = KeyError cfn) ∧
     (companions_present self →
      ∃ self' counts, assign_groups self = Returned (self', counts))) ∧
  (∃ dora log,
     new_Student ∅ "Dora" "Neri" 596004 "neri@studenti.unipi.it" "C1"
                 None None None = inr (dora, log) ∧
     log ≠ [] ∧
     ¬ In (macro_group dora) MACRO_GROUPS ∧
     dict_subset init_counts (macro_group dora) = [] ∧
     assign_groups (DataBase_of [dora])
     = Raised ValueError (DataBase_of [dora], init_counts)).
Proof.
  split_and!.
  - apply select_valid.
  - intros self Hvalid. split.
    + intros e st H. unfold assign_groups in H.
      destruct (assign_loop_Raised
                  (λ st, keys st.2 = GROUPS ∧ roster st.1 = roster self)
                  _ (valid_step self) (self, init_counts) _ _
                  (conj init_counts_keys eq_refl) H)
        as (i & s & c & _ & [Hk HR] & Hb).
      by eapply body_spec_Raised_valid.
    + intros Hpresent.
      destruct (assign_loop_total self (seq 0 (length self)) self init_counts)
        as [[self' counts] H]; try done.
      by exists self', counts.
  - eexists _, _. split; [vm_compute; reflexivity|].
    split_and!; [discriminate| |reflexivity|vm_compute; reflexivity].
    simpl. intros [H|[H|[H|[H|[]]]]]; discriminate H.
Qed.

Lemma assign_groups_total_on_valid_groups_witness :
  (∃ grp, min_group (dict_subset init_counts "A2") = Some grp ∧
          py_slice_to 2 grp = "A2" ∧
          length (dict_subset init_counts "A2") = 6) ∧
  (∀ e st, assign_groups roster_missing = Raised e st →
     ∃ key student cfn, (key, student) ∈ roster_missing ∧
       companion_full_name student = Some cfn ∧ (cfn ∉ keys roster_missing) ∧
       e = KeyError cfn) ∧
  (∃ self' counts, assign_groups roster_pair = Returned (self', counts)).
Proof.
  destruct assign_groups_total_on_valid_groups as (Hsel & Hrun & _).
  split_and!.
  - apply Hsel; [reflexivity|]. simpl. tauto.
  - apply (Hrun roster_missing).
    intros key student Hin. vm_compute in Hin.
    repeat (apply elem_of_cons in Hin as [[= -> ->]|Hin]; [simpl; tauto|]).
    by apply elem_of_nil in Hin.
  - apply (Hrun roster_pair).
    + intros key student Hin. vm_compute in Hin.
      repeat (apply elem_of_cons in Hin as [[= -> ->]|Hin]; [simpl; tauto|]).
      by apply elem_of_nil in Hin.
    + intros key student cfn Hin Hc. vm_compute in Hin.
      repeat (apply elem_of_cons in Hin as [[= -> ->]|Hin];
              [injection Hc as <-; apply (bool_decide_unpack _); vm_compute; exact I|]).
      by apply elem_of_nil in Hin.
Defined.

(** ** A companion who is not in the database *)

Lemma dict_find_elem {V} (d : dict V) key j v :
  dict_find d key = Some (j, v) → key ∈ keys d.
Proof.
  intros H. apply dict_find_Some in H as [H _].
  apply list_elem_of_fmap. exists (key, v). split; [done|].
  by eapply list_elem_of_lookup_2.
Qed.


(** C2 (the code at the failing input). Alice names Bob, who is not in the
    database: [check_companions] logs the error and goes on, while
    [assign_groups] gives Alice her group and then raises
    [KeyError('Bob Bianchi')] instead of returning. *)
Theorem assign_groups_missing_companion_raises :
  check_companions roster_missing
  = [(ERROR, "Cannot find Bob Bianchi to match with Alice Rossi")] ∧
  ∃ st, assign_groups roster_missing = Raised (KeyError "Bob Bianchi") st ∧
        groups_of st.1 = [Some "B2-1-1"] ∧
        count_of st.2 "B2-1-1" = 1.
Proof.
  split; [vm_compute; reflexivity|].
  eexists. split; [vm_compute; reflexivity|]. split; reflexivity.
Qed.

(** ** Building a student *)

Lemma py_getitem_mod4 (identifier : Z) :
  ∃ expected,
    py_getitem MACRO_GROUPS (identifier mod 4) = Some expected ∧
    MACRO_GROUPS !! Z.to_nat (identifier mod 4) = Some expected.
Proof.
  pose proof (Z.mod_pos_bound identifier 4 eq_refl) as Hb.
  unfold py_getitem. destruct (Z.leb_spec 0 (identifier mod 4)) as [_|?]; [|lia].
  destruct (Z.to_nat (identifier mod 4)) as [|[|[|[|n]]]] eqn:E;
    [by eexists..|lia].
Qed.

(** C6. Building a student never raises: the student holds the fields of
    the row as they are, the declared macro group included, and has no
    group.  The expected macro group is the entry of [GROUP_CHANGES] for the
    identifier when there is one and [MACRO_GROUPS[identifier % 4]]
    otherwise; one error is logged when the declared macro group differs
    from it, and nothing is logged when it does not. *)
Theorem new_Student_soft_validation (GROUP_CHANGES : gmap Z string)
    (name surname : string) (identifier : Z) (email macro_group : string)
    (companion_name companion_surname notes : option string) :
  let self := mkStudent name surname identifier email macro_group
                companion_name companion_surname notes None in
  ∃ expected,
    expected_group GROUP_CHANGES self = inr expected ∧
    match GROUP_CHANGES !! identifier with
    | Some change => expected = change
    | None => MACRO_GROUPS !! Z.to_nat (identifier mod 4) = Some expected
    end ∧
    new_Student GROUP_CHANGES name surname identifier email macro_group
                companion_name companion_surname notes
    = inr (self,
           if decide (macro_group = expected) then []
           else [(ERROR, "Group for " +:+ full_name self +:+ " is "
                           +:+ macro_group +:+ " instead of " +:+ expected)]).
Proof.
  intros self.
  assert (He : ∃ expected, expected_group GROUP_CHANGES self = inr expected ∧
            match GROUP_CHANGES !! identifier with
            | Some change => expected = change
            | None => MACRO_GROUPS !! Z.to_nat (identifier mod 4) = Some expected
            end).
  { unfold expected_group. simpl.
    destruct (GROUP_CHANGES !! identifier) as [change|]; [by eexists|].
    destruct (py_getitem_mod4 identifier) as (expected & -> & ?).
    by eexists. }
  destruct He as (expected & He & Hwhich). exists expected.
  split_and!; [done..|].
  unfold new_Student, post_init. fold self. rewrite He. simpl.
  destruct (String.eqb_spec macro_group expected) as [->|Hne]; simpl.
  - by rewrite decide_True.
  - by rewrite decide_False.
Qed.

(** Identifier 17 without an entry in the table: the expected macro group
    is [MACRO_GROUPS[1]]. *)
Example expected_group_17 :
  expected_group ∅ (mkStudent "Dora" "Neri" 17 "neri@studenti.unipi.it" "B1"
                              None None None None) = inr "B1".
Proof. reflexivity. Qed.

(** ** The companion's full name *)

(** C7 (as amended). The companion's full name is the companion's name, a
    blank and the companion's surname when both fields are set, and is
    absent exactly when both fields are unset; a student has a companion
    exactly when the full name is there, so also when only one of the two
    fields is set. *)
Theorem companion_full_name_cases (self : Student) :
  (∀ cn cs, companion_name self = Some cn → companion_surname self = Some cs →
     companion_full_name self = Some (cn +:+ " " +:+ cs)) ∧
  (companion_full_name self = None ↔
     companion_name self = None ∧ companion_surname self = None) ∧
  (has_companion self = true ↔ companion_full_name self ≠ None) ∧
  (has_companion self = false ↔
     companion_name self = None ∧ companion_surname self = None).
Proof.
  unfold has_companion, companion_full_name.
  destruct (companion_name self) as [cn|], (companion_surname self) as [cs|];
    simpl; split_and!; try split; try done;
    try (intros ? ? [= <-] [= <-]; done); try (by intros [? ?]);
    try (by intros []).
Qed.

Lemma companion_full_name_cases_witness :
  companion_full_name (alice "B2" None) = Some ("Bob" +:+ " " +:+ "Bianchi").
Proof.
  apply (proj1 (companion_full_name_cases (alice "B2" None)) "Bob" "Bianchi");
    reflexivity.
Defined.

(** C7 (as stated) fails on a student with the companion's surname only:
    the full name is there, it is "None Rossi", and the student has a
    companion. *)
Lemma companion_full_name_partial :
  let self := mkStudent "Carl" "Verdi" 596003 "c.verdi@studenti.unipi.it" "A1"
                None (Some "Rossi") None None in
  companion_full_name_spec self = None ∧
  companion_full_name self = Some "None Rossi" ∧
  companion_full_name self ≠ companion_full_name_spec self ∧
  has_companion self = true.
Proof. split_and!; [reflexivity..|discriminate|reflexivity]. Qed.

(** ** The database that [__init__] builds *)




(** * Further properties *)

(** ** Building the database *)







Lemma dict_find_setitem {V} (d : dict V) key value :
  ∃ j, dict_find (dict_setitem d key value) key = Some (j, value).
Proof.
  induction d as [|[k v] d IH]; simpl.
  - rewrite String.eqb_refl. by eexists.
  - destruct (String.eqb_spec k key) as [->|Hne]; simpl.
    + rewrite String.eqb_refl. by eexists.
    + destruct (String.eqb_spec k key); [done|].
      destruct IH as [j ->]. by eexists.
Qed.

Lemma dict_find_setitem_ne {V} (d : dict V) key value key' :
  key ≠ key' →
  dict_find (dict_setitem d key value) key' = dict_find d key'.
Proof.
  intros Hne. induction d as [|[k v] d IH]; simpl.
  - by destruct (String.eqb_spec key key').
  - destruct (String.eqb_spec k key) as [->|Hk]; simpl.
    + by destruct (String.eqb_spec key key').
    + destruct (String.eqb_spec k key'); [done|]. by rewrite IH.
Qed.

(** X2. When several rows have the same full name, the database holds the
    student of the last of them: a later row overwrites the earlier
    student under the same key. *)
Theorem DataBase_of_last_wins (before after : list Student) (student : Student) :
  (∀ s, s ∈ after → full_name s ≠ full_name student) →
  ∃ j, dict_find (DataBase_of (before ++ student :: after)) (full_name student)
       = Some (j, student).
Proof.
  unfold DataBase_of. rewrite foldl_app. simpl.
  set (d := foldl _ [] before). clearbody d.
  destruct (dict_find_setitem d (full_name student) student) as [j Hj].
  revert Hj. generalize (dict_setitem d (full_name student) student) as d'.
  induction after as [|s after IH]; intros d' Hj Hafter; simpl; [by exists j|].
  apply IH.
  - rewrite dict_find_setitem_ne; [done|].
    apply Hafter. by apply elem_of_cons; left.
  - intros s' Hs'. apply Hafter. by apply elem_of_cons; right.
Qed.

Lemma DataBase_of_last_wins_witness :
  ∃ j, dict_find (DataBase_of ([alice "A1" None] ++ alice "B2" None :: [bob "B2"]))
                 (full_name (alice "B2" None))
       = Some (j, alice "B2" None).
Proof.
  apply (DataBase_of_last_wins [alice "A1" None] [bob "B2"] (alice "B2" None)).
  intros s Hs. apply list_elem_of_singleton in Hs as ->. discriminate.
Defined.

(** ** The table of group changes *)

(** X3. The table of group changes maps an identifier to the group of the
    last row of the sheet with that identifier, and has no entry for an
    identifier that is in no row. *)
Theorem load_GROUP_CHANGES_last (rows : list (Z * string)) (identifier : Z) :
  load_GROUP_CHANGES rows !! identifier
  = snd <$> last (filter (λ row, row.1 = identifier) rows).
Proof.
  unfold load_GROUP_CHANGES.
  induction rows as [|[i g] rows IH] using rev_ind; [done|].
  rewrite foldl_app, filter_app. simpl. rewrite filter_cons, filter_nil. simpl.
  destruct (decide (i = identifier)) as [->|Hne].
  - rewrite lookup_insert_eq. by rewrite last_snoc.
  - rewrite lookup_insert_ne by done. by rewrite app_nil_r.
Qed.

(** ** The subset of a dictionary *)

(** X4. [dict_subset] keeps the entries whose key starts with the prefix,
    in their order and with their values: reading a key in the subset
    gives what the dictionary gives when the key starts with the prefix and
    nothing otherwise, and taking the subset twice changes nothing. *)
Theorem dict_subset_get {V} (d : dict V) (mg key : string) :
  dict_get (dict_subset d mg) key
  = (if startswith key mg then dict_get d key else None) ∧
  keys (dict_subset d mg) = filter (λ k, startswith k mg = true) (keys d) ∧
  dict_subset (dict_subset d mg) mg = dict_subset d mg.
Proof.
  split_and!.
  - destruct (startswith key mg) eqn:Hs; [by apply dict_get_subset|].
    induction d as [|[k v] d IH]; [done|].
    unfold dict_subset in *. rewrite filter_cons. simpl.
    case_decide as Hk; simpl; [|by destruct (String.eqb_spec k key); [congruence|]].
    destruct (String.eqb_spec k key) as [->|Hne]; [congruence|apply IH].
  - apply keys_subset.
  - unfold dict_subset. induction d as [|[k v] d IH]; [done|].
    rewrite filter_cons. case_decide as Hk; [|done].
    rewrite filter_cons. rewrite decide_True by done. by rewrite IH.
Qed.

(** ** What a call leaves in place *)

Lemma assign_loop_keys positions st :
  keys (final_state (assign_loop positions st)).2 = keys st.2.
Proof.
  revert st. induction positions as [|i rest IH]; intros [self cd];
    cbn [assign_loop]; [done|].
  pose proof (assign_body_spec i self cd) as Hb.
  apply body_spec_grows in Hb as [_ Hb].
  destruct (assign_body i (self, cd)) as [st1|e st1]; [|exact Hb].
  rewrite IH. exact Hb.
Qed.

Lemma assign_groups_length (self : DataBase) :
  length (final_state (assign_groups self)).1 = length self.
Proof.
  apply roster_length.
  apply (assign_loop_grows (seq 0 (length self)) (self, init_counts)).
Qed.

(** X5. Whether it returns or raises, [assign_groups] leaves the keys of
    the database, their order and every field of every student but the
    group as they were, and its counters are keyed by the 24 leaf groups in
    the order of [GROUPS]. *)
Theorem assign_groups_keeps_roster (self : DataBase) :
  roster (final_state (assign_groups self)).1 = roster self ∧
  keys (final_state (assign_groups self)).1 = keys self ∧
  length (final_state (assign_groups self)).1 = length self ∧
  keys (final_state (assign_groups self)).2 = GROUPS.
Proof.
  pose proof (assign_loop_grows (seq 0 (length self)) (self, init_counts))
    as [HR _].
  split_and!.
  - exact HR.
  - by apply roster_keys.
  - by apply roster_length.
  - unfold assign_groups. by rewrite assign_loop_keys.
Qed.

(** ** The sum of the counters *)

Lemma dict_incr_total d key d' : dict_incr d key = Some d' → total d' = S (total d).
Proof.
  unfold total. revert d'. induction d as [|[k v] d IH]; intros d'; simpl; [done|].
  destruct (String.eqb k key); [by intros [= <-]|].
  destruct (dict_incr d key) as [d0|]; [|done].
  intros [= <-]. simpl. rewrite (IH d0 eq_refl). lia.
Qed.

Lemma body_spec_total i self count_dict o :
  body_spec i self count_dict o →
  total (final_state o).2 + assigned self
  = total count_dict + assigned (final_state o).1.
Proof.
  destruct 1 as [ | | | key student grp count1 Hi Hg Hmin Ha H1 Hc
                 | key student grp count1 cfn Hi Hg Hmin Ha H1 Hc Hf
                 | key student grp count1 count2 cfn j companion
                     Hi Hg Hmin Ha H1 Hc Hf Hgc H2 ]; simpl; try lia.
  - rewrite (store_group_assigned _ _ _ _ _ Hi Hg), (dict_incr_total _ _ _ H1). lia.
  - rewrite (store_group_assigned _ _ _ _ _ Hi Hg), (dict_incr_total _ _ _ H1). lia.
  - apply dict_find_Some in Hf as [Hj _].
    rewrite (store_group_assigned _ _ _ _ _ Hj Hgc).
    rewrite (store_group_assigned _ _ _ _ _ Hi Hg).
    rewrite (dict_incr_total _ _ _ H2), (dict_incr_total _ _ _ H1). lia.
Qed.

Lemma assign_loop_total_count positions st :
  total (final_state (assign_loop positions st)).2 + assigned st.1
  = total st.2 + assigned (final_state (assign_loop positions st)).1.
Proof.
  revert st. induction positions as [|i rest IH]; intros [self cd];
    cbn [assign_loop]; [done|].
  pose proof (body_spec_total _ _ _ _ (assign_body_spec i self cd)) as Hb.
  destruct (assign_body i (self, cd)) as [st1|e st1]; [|exact Hb].
  specialize (IH st1). simpl in *. lia.
Qed.

Lemma init_counts_total : total init_counts = 0.
Proof. reflexivity. Qed.

Lemma all_assigned_count self : all_assigned self → assigned self = length self.
Proof.
  unfold all_assigned, assigned. intros H.
  induction self as [|[k s] self IH]; [done|].
  rewrite filter_cons. rewrite decide_True.
  - simpl. f_equal. apply IH. intros k' s' Hin. apply (H k' s').
    by apply elem_of_cons; right.
  - apply (H k s). by apply elem_of_cons; left.
Qed.

Lemma unassigned_count self : unassigned self → assigned self = 0.
Proof.
  unfold unassigned, assigned. intros H.
  induction self as [|[k s] self IH]; [done|].
  rewrite filter_cons. rewrite decide_False.
  - apply IH. intros k' s' Hin. apply (H k' s'). by apply elem_of_cons; right.
  - simpl. rewrite (H k s) by (by apply elem_of_cons; left). by intros [? ?].
Qed.

(** X6. Whether [assign_groups] returns or raises, its counters add up to
    the number of students that have got a group in the call; when it
    returns on a database where nobody had a group, they add up to the
    number of students. *)
Theorem assign_groups_counts_everybody :
  (∀ self : DataBase,
     total (final_state (assign_groups self)).2 + assigned self
     = assigned (final_state (assign_groups self)).1) ∧
  (∀ (self self' : DataBase) counts,
     unassigned self → assign_groups self = Returned (self', counts) →
     total counts = length self).
Proof.
  assert (Hall : ∀ self : DataBase,
     total (final_state (assign_groups self)).2 + assigned self
     = assigned (final_state (assign_groups self)).1).
  { intros self.
    pose proof (assign_loop_total_count (seq 0 (length self)) (self, init_counts))
      as H. cbn [fst snd] in H. rewrite init_counts_total in H. exact H. }
  split; [exact Hall|].
  intros self self' counts Hu H. specialize (Hall self).
  pose proof (assign_groups_all_assigned _ _ _ H) as Ha.
  pose proof (assign_groups_length self) as Hlen.
  rewrite H in Hall, Hlen. simpl in Hall, Hlen.
  rewrite (unassigned_count _ Hu), (all_assigned_count _ Ha) in Hall. lia.
Qed.

Lemma assign_groups_counts_everybody_witness :
  total (final_state (assign_groups roster_third)).2 = length roster_third.
Proof.
  apply (proj2 assign_groups_counts_everybody roster_third
           (final_state (assign_groups roster_third)).1).
  - intros key student Hin. vm_compute in Hin.
    repeat (apply elem_of_cons in Hin as [[= -> ->]|Hin]; [reflexivity|]).
    by apply elem_of_nil in Hin.
  - vm_compute. reflexivity.
Defined.

(** ** The totals of the macro groups *)

Lemma startswith_once k :
  In k GROUPS →
  Nat.b2n (startswith k "A1") + Nat.b2n (startswith k "B1")
  + Nat.b2n (startswith k "A2") + Nat.b2n (startswith k "B2") = 1.
Proof.
  intros H. repeat (destruct H as [<-|H]; [reflexivity|]). destruct H.
Qed.

Lemma subset_total_cons (k : string) (v : nat) (d : dict nat) mg :
  total (dict_subset ((k, v) :: d) mg)
  = Nat.b2n (startswith k mg) * v + total (dict_subset d mg).
Proof.
  unfold total, dict_subset. rewrite filter_cons.
  destruct (startswith k mg) eqn:Hs.
  - rewrite decide_True by done. simpl. lia.
  - rewrite decide_False by (simpl; congruence). simpl. lia.
Qed.

Lemma macro_counts_sum (d : dict nat) :
  (∀ k, In k (keys d) → In k GROUPS) →
  sum_list (values (macro_counts d)) = total d.
Proof.
  unfold macro_counts, MACRO_GROUPS. simpl.
  change (sum_list (values (dict_subset d ?mg))) with (total (dict_subset d mg)).
  induction d as [|[k v] d IH]; intros Hk; [reflexivity|].
  rewrite !subset_total_cons.
  pose proof (startswith_once k (Hk k (or_introl eq_refl))) as Hone.
  assert (IH' := IH (λ k' Hin, Hk k' (or_intror Hin))).
  unfold total at 5. simpl. fold (total d).
  destruct (startswith k "A1"), (startswith k "B1"), (startswith k "A2"),
    (startswith k "B2"); simpl in Hone; try discriminate Hone; simpl; lia.
Qed.

(** X7. The four totals that [assign_groups] logs after the loop, one for
    each macro group in the order of [MACRO_GROUPS], add up to the number
    of students that have got a group in the call: every leaf group is
    counted under one macro group and one only. *)
Theorem macro_counts_everybody (self : DataBase) :
  keys (macro_counts (final_state (assign_groups self)).2) = MACRO_GROUPS ∧
  sum_list (values (macro_counts (final_state (assign_groups self)).2))
  + assigned self
  = assigned (final_state (assign_groups self)).1.
Proof.
  split; [reflexivity|].
  rewrite macro_counts_sum.
  - pose proof (assign_loop_total_count (seq 0 (length self)) (self, init_counts))
      as H. cbn [fst snd] in H. rewrite init_counts_total in H. exact H.
  - intros k Hk. unfold assign_groups in Hk. rewrite assign_loop_keys in Hk.
    exact Hk.
Qed.

(** ** A macro group that is not one of the four *)

Lemma slice_macro g : In g GROUPS → In (py_slice_to 2 g) MACRO_GROUPS.
Proof.
  intros H. repeat (destruct H as [<-|H]; [simpl; tauto|]). destruct H.
Qed.

(** X8. For a student without a group whose macro group is not one of the
    four, the iteration raises and leaves the database and the counters
    untouched: [ValueError] when no leaf group starts with the declared
    macro group, [AssertionError] when some do (the declared macro group is
    then a proper prefix of a label, or a label with more than its first
    two characters). *)
Theorem assign_body_invalid_group (self : DataBase) (count_dict : dict nat)
    i key student :
  keys count_dict = GROUPS →
  self !! i = Some (key, student) → group student = None →
  ¬ In (macro_group student) MACRO_GROUPS →
  assign_body i (self, count_dict)
  = Raised (if decide (candidates (macro_group student) = [])
            then ValueError else AssertionError) (self, count_dict).
Proof.
  intros Hk Hi Hg Hmg.
  pose proof (assign_body_spec i self count_dict) as Hb.
  remember (assign_body i (self, count_dict)) as o eqn:Ho. clear Ho.
  assert (Hin : ∀ grp,
    min_group (dict_subset count_dict (macro_group student)) = Some grp →
    py_slice_to 2 grp ≠ macro_group student ∧
    candidates (macro_group student) ≠ []).
  { intros grp Hmin. apply min_group_elem in Hmin as [Hin Hst].
    rewrite Hk in Hin. split.
    - intros Heq. apply Hmg. rewrite <- Heq.
      by apply slice_macro, list_elem_of_In.
    - intros Hnil.
      assert (Hc : grp ∈ candidates (macro_group student))
        by (by apply list_elem_of_filter).
      rewrite Hnil in Hc. by apply elem_of_nil in Hc. }
  destruct Hb as [ Hs | k s Hi' Hg' Hmin | k s grp Hi' Hg' Hmin Ha
                 | k s grp count1 Hi' Hg' Hmin Ha H1 Hcomp
                 | k s grp count1 cfn Hi' Hg' Hmin Ha H1 Hcomp Hf
                 | k s grp count1 count2 cfn j companion
                     Hi' Hg' Hmin Ha H1 Hcomp Hf Hgc H2 ];
    try (rewrite Hi in Hi'; injection Hi' as <- <-);
    try (by destruct (Hin _ Hmin) as [Hne _]).
  - destruct (Hs _ _ Hi) as [g Hsome]. congruence.
  - apply min_group_None in Hmin. rewrite Hk in Hmin.
    unfold candidates. by rewrite decide_True.
  - destruct (Hin _ Hmin) as [_ Hne]. by rewrite decide_False.
Qed.

Lemma assign_body_invalid_group_witness :
  assign_body 0 ([("Dora Neri", single "Dora" "A" None)], init_counts)
  = Raised (if decide (candidates "A" = []) then ValueError else AssertionError)
           ([("Dora Neri", single "Dora" "A" None)], init_counts).
Proof.
  apply (assign_body_invalid_group [("Dora Neri", single "Dora" "A" None)]
           init_counts 0 "Dora Neri" (single "Dora" "A" None)).
  - reflexivity.
  - reflexivity.
  - reflexivity.
  - simpl. intros [H|[H|[H|[H|[]]]]]; discriminate H.
Defined.

(** ** The companion of a student that is placed *)

Lemma dict_find_store_group_ne (self : DataBase) i grp key j companion :
  dict_find self key = Some (j, companion) → j ≠ i →
  dict_find (store_group i grp self) key = Some (j, companion).
Proof.
  unfold store_group. revert i j.
  induction self as [|[k s] self IH]; intros i j; simpl; [done|].
  destruct i as [|i]; simpl.
  - destruct (String.eqb k key); [by intros [= <- <-]|done].
  - destruct (String.eqb k key); [done|].
    destruct (dict_find self key) as [[j0 c0]|] eqn:E; [|done].
    intros [= <- <-] Hne.
    change (list_alter ?f i self) with (alter f i self).
    rewrite (IH i j0 eq_refl); [done|lia].
Qed.

Lemma dict_find_store_group_eq (self : DataBase) i grp key companion :
  dict_find self key = Some (i, companion) →
  dict_find (store_group i grp self) key = Some (i, set_group companion grp).
Proof.
  unfold store_group. revert i.
  induction self as [|[k s] self IH]; intros i; simpl; [done|].
  destruct i as [|i]; simpl.
  - destruct (String.eqb k key); [by intros [= <-]|].
    by destruct (dict_find self key) as [[j0 c0]|].
  - destruct (String.eqb k key); [done|].
    destruct (dict_find self key) as [[j0 c0]|] eqn:E; [|done].
    intros [= <- <-].
    change (list_alter ?f j0 self) with (alter f j0 self).
    by rewrite (IH j0 eq_refl).
Qed.

(** X9. A student without a group, of one of the four macro groups, who
    names a student that is in the database and has no group, is placed
    together with that student: both get the selected group, whose counter
    grows by 2.  Neither that the named student names the first one back
    nor that both declare the same macro group is asked for. *)
Theorem assign_body_takes_companion (self : DataBase) (count_dict : dict nat)
    i j key student cfn companion :
  keys count_dict = GROUPS →
  self !! i = Some (key, student) → group student = None →
  In (macro_group student) MACRO_GROUPS →
  companion_full_name student = Some cfn →
  dict_find self cfn = Some (j, companion) → j ≠ i →
  group companion = None →
  ∃ grp self' counts,
    assign_body i (self, count_dict) = Returned (self', counts) ∧
    py_slice_to 2 grp = macro_group student ∧
    self' !! i = Some (key, set_group student grp) ∧
    self' !! j = Some (cfn, set_group companion grp) ∧
    count_of counts grp = count_of count_dict grp + 2.
Proof.
  intros Hk Hi Hg Hmg Hc Hfind Hji Hgc.
  pose proof (assign_body_spec i self count_dict) as Hb.
  remember (assign_body i (self, count_dict)) as o eqn:Ho. clear Ho.
  destruct (select_valid count_dict _ Hk Hmg) as (grp0 & Hsel & Hsl & _).
  pose proof (dict_find_Some _ _ _ _ Hfind) as [Hj _].
  destruct Hb as [ Hs | k s Hi' Hg' Hmin | k s grp Hi' Hg' Hmin Ha
                 | k s grp count1 Hi' Hg' Hmin Ha H1 Hcomp
                 | k s grp count1 cfn' Hi' Hg' Hmin Ha H1 Hcomp Hf
                 | k s grp count1 count2 cfn' j' companion'
                     Hi' Hg' Hmin Ha H1 Hcomp Hf Hgc' H2 ];
    try (rewrite Hi in Hi'; injection Hi' as <- <-); try congruence.
  - destruct (Hs _ _ Hi) as [g Hsome]. congruence.
  - exfalso. destruct Hcomp as [Hn|(cfn' & j' & c' & Hc' & Hf & Hsome)];
      [congruence|].
    assert (cfn' = cfn) as -> by congruence.
    rewrite (dict_find_store_group_ne _ _ _ _ _ _ Hfind Hji) in Hf.
    injection Hf as <- <-. rewrite Hgc in Hsome. by destruct Hsome.
  - exfalso. assert (cfn' = cfn) as -> by congruence.
    rewrite (dict_find_store_group_ne _ _ _ _ _ _ Hfind Hji) in Hf. done.
  - assert (cfn' = cfn) as -> by congruence.
    rewrite (dict_find_store_group_ne _ _ _ _ _ _ Hfind Hji) in Hf.
    injection Hf as <- <-.
    exists grp, (store_group j grp (store_group i grp self)), count2.
    split_and!; [done..| | |].
    + rewrite store_group_lookup_ne by done. by apply store_group_lookup.
    + apply store_group_lookup. by rewrite store_group_lookup_ne.
    + rewrite (dict_incr_get _ _ _ grp H2), (dict_incr_get _ _ _ grp H1).
      rewrite decide_True by done. lia.
Qed.

Lemma assign_body_takes_companion_witness :
  ∃ grp self' counts,
    assign_body 0 (roster_cross, init_counts) = Returned (self', counts) ∧
    py_slice_to 2 grp = macro_group (alice "A1" None) ∧
    self' !! 0 = Some ("Alice Rossi", set_group (alice "A1" None) grp) ∧
    self' !! 1 = Some ("Bob Bianchi", set_group (bob "B1") grp) ∧
    count_of counts grp = count_of init_counts grp + 2.
Proof.
  apply (assign_body_takes_companion roster_cross init_counts 0 1
           "Alice Rossi" (alice "A1" None) "Bob Bianchi" (bob "B1")).
  - reflexivity.
  - reflexivity.
  - reflexivity.
  - simpl. tauto.
  - reflexivity.
  - reflexivity.
  - lia.
  - reflexivity.
Defined.

(** X10. A student without a group, of one of the four macro groups, who
    names no companion, or names themselves, or names a student who has a
    group already, is placed alone: the student gets the selected group,
    its counter grows by 1, and nobody else is changed. *)
Theorem assign_body_alone (self : DataBase) (count_dict : dict nat)
    i key student :
  keys count_dict = GROUPS →
  self !! i = Some (key, student) → group student = None →
  In (macro_group student) MACRO_GROUPS →
  (companion_full_name student = None ∨
   ∃ cfn j companion,
     companion_full_name student = Some cfn ∧
     dict_find self cfn = Some (j, companion) ∧
     (j = i ∨ is_Some (group companion))) →
  ∃ grp counts,
    assign_body i (self, count_dict)
    = Returned (store_group i grp self, counts) ∧
    py_slice_to 2 grp = macro_group student ∧
    count_of counts grp = count_of count_dict grp + 1 ∧
    ∀ p, p ≠ i → store_group i grp self !! p = self !! p.
Proof.
  intros Hk Hi Hg Hmg Hwhy.
  pose proof (assign_body_spec i self count_dict) as Hb.
  remember (assign_body i (self, count_dict)) as o eqn:Ho. clear Ho.
  destruct (select_valid count_dict _ Hk Hmg) as (grp0 & Hsel & Hsl & _).
  assert (Hfound : ∀ grp cfn,
    companion_full_name student = Some cfn →
    ∃ j c, dict_find (store_group i grp self) cfn = Some (j, c) ∧
           is_Some (group c)).
  { intros grp cfn Hc.
    destruct Hwhy as [Hn|(cfn' & j & c & Hc' & Hfind & Hor)]; [congruence|].
    assert (cfn' = cfn) as -> by congruence.
    destruct (decide (j = i)) as [->|Hne].
    - exists i, (set_group c grp). split; [by apply dict_find_store_group_eq|].
      by eexists.
    - exists j, c. split; [by apply dict_find_store_group_ne|].
      by destruct Hor. }
  destruct Hb as [ Hs | k s Hi' Hg' Hmin | k s grp Hi' Hg' Hmin Ha
                 | k s grp count1 Hi' Hg' Hmin Ha H1 Hcomp
                 | k s grp count1 cfn' Hi' Hg' Hmin Ha H1 Hcomp Hf
                 | k s grp count1 count2 cfn' j' companion'
                     Hi' Hg' Hmin Ha H1 Hcomp Hf Hgc' H2 ];
    try (rewrite Hi in Hi'; injection Hi' as <- <-); try congruence.
  - destruct (Hs _ _ Hi) as [g Hsome]. congruence.
  - exists grp, count1. split_and!; [done..| |].
    + rewrite (dict_incr_get _ _ _ grp H1). by rewrite decide_True.
    + intros p Hp. by apply store_group_lookup_ne.
  - exfalso. destruct (Hfound grp _ Hcomp) as (j & c & Hf' & _). congruence.
  - exfalso. destruct (Hfound grp _ Hcomp) as (j & c & Hf' & Hsome).
    rewrite Hf in Hf'. injection Hf' as <- <-.
    rewrite Hgc' in Hsome. by destruct Hsome.
Qed.

Lemma assign_body_alone_witness :
  ∃ grp counts,
    assign_body 0 ([("Dora Neri", single "Dora" "A1" None)], init_counts)
    = Returned (store_group 0 grp [("Dora Neri", single "Dora" "A1" None)],
                counts) ∧
    py_slice_to 2 grp = macro_group (single "Dora" "A1" None) ∧
    count_of counts grp = count_of init_counts grp + 1 ∧
    ∀ p, p ≠ 0 →
      store_group 0 grp [("Dora Neri", single "Dora" "A1" None)] !! p
      = [("Dora Neri", single "Dora" "A1" None)] !! p.
Proof.
  apply (assign_body_alone [("Dora Neri", single "Dora" "A1" None)]
           init_counts 0 "Dora Neri" (single "Dora" "A1" None)).
  - reflexivity.
  - reflexivity.
  - reflexivity.
  - simpl. tauto.
  - left. reflexivity.
Defined.

(** ** Students without companions *)

Lemma unit_sizes_single self0 positions st :
  (∀ key student, (key, student) ∈ self0 → companion_full_name student = None) →
  roster st.1 = roster self0 →
  max_list (unit_sizes positions st) ≤ 1.
Proof.
  intros Hnone. revert st.
  induction positions as [|i rest IH]; intros [self cd] HR;
    cbn [unit_sizes max_list]; [lia|].
  pose proof (assign_body_spec i self cd) as Hb.
  pose proof (body_spec_grows _ _ _ _ Hb) as [[HR' _] _].
  assert (Hsingle : ∀ key student cfn, self !! i = Some (key, student) →
            companion_full_name student = Some cfn → False).
  { intros key student cfn Hi Hc. simpl in HR.
    destruct (roster_lookup _ _ _ _ _ HR Hi) as (s0 & Hs0 & He).
    apply erase_group_fields in He as (_ & He & _).
    rewrite <- He, (Hnone key s0) in Hc; [done|].
    by eapply list_elem_of_lookup_2. }
  assert (Hunit : assigned (final_state (assign_body i (self, cd))).1
                  - assigned self ≤ 1).
  { destruct Hb as [ | | | key student grp count1 Hi Hg Hmin Ha H1 Hc
                   | key student grp count1 cfn Hi Hg Hmin Ha H1 Hc Hf
                   | key student grp count1 count2 cfn j companion
                       Hi Hg Hmin Ha H1 Hc Hf Hgc H2 ]; simpl; try lia.
    - rewrite (store_group_assigned _ _ _ _ _ Hi Hg). lia.
    - rewrite (store_group_assigned _ _ _ _ _ Hi Hg). lia.
    - by destruct (Hsingle _ _ _ Hi Hc). }
  destruct (assign_body i (self, cd)) as [st1|e st1].
  - assert (HR1 : roster st1.1 = roster self0) by (simpl in *; congruence).
    specialize (IH st1 HR1). simpl in *. lia.
  - simpl in *. lia.
Qed.

(** X11. When no student names a companion and [assign_groups] returns,
    any two counters of one macro group differ by at most 1. *)
Theorem singles_balanced (self self' : DataBase) (counts : dict nat) :
  (∀ key student, (key, student) ∈ self → companion_full_name student = None) →
  assign_groups self = Returned (self', counts) →
  ∀ mg g1 g2,
    In mg MACRO_GROUPS → In g1 (candidates mg) → In g2 (candidates mg) →
    count_of counts g1 ≤ count_of counts g2 + 1.
Proof.
  intros Hnone H mg g1 g2 Hmg H1 H2.
  pose proof (assign_loop_balanced _ _ _ _ _ 0 init_counts_keys balanced_init H)
    as Hbal.
  rewrite Nat.max_0_l in Hbal. specialize (Hbal mg g1 g2 Hmg H1 H2).
  pose proof (unit_sizes_single self (seq 0 (length self)) (self, init_counts)
                Hnone eq_refl) as Hle.
  lia.
Qed.

Lemma singles_balanced_witness :
  count_of (final_state (assign_groups roster_singles)).2 "A1-1-1"
  ≤ count_of (final_state (assign_groups roster_singles)).2 "A1-3-2" + 1.
Proof.
  apply (singles_balanced roster_singles
           (final_state (assign_groups roster_singles)).1
           (final_state (assign_groups roster_singles)).2) with (mg := "A1").
  - intros key student Hin. vm_compute in Hin.
    repeat (apply elem_of_cons in Hin as [[= -> ->]|Hin]; [reflexivity|]).
    by apply elem_of_nil in Hin.
  - vm_compute. reflexivity.
  - simpl. tauto.
  - vm_compute. tauto.
  - vm_compute. tauto.
Defined.

(** ** The check of the companions *)

Lemma check_companion_nil (self : DataBase) (student : Student) :
  check_companion self student = [] ↔
  ∀ cfn, companion_full_name student = Some cfn →
    ∃ j companion, dict_find self cfn = Some (j, companion) ∧
      companion_full_name companion = Some (full_name student) ∧
      macro_group student = macro_group companion.
Proof.
  unfold check_companion.
  destruct (companion_full_name student) as [cfn|]; [|by split].
  destruct (dict_find self cfn) as [[j companion]|] eqn:Hf.
  - case_bool_decide as Hback; simpl.
    + destruct (String.eqb_spec (macro_group student) (macro_group companion))
        as [Hm|Hm]; simpl.
      * split; [|done]. intros _ ? [= <-]. by exists j, companion.
      * split; [done|]. intros H.
        destruct (H cfn eq_refl) as (j' & c' & Hf' & _ & Hm').
        rewrite Hf in Hf'. injection Hf' as <- <-. done.
    + split; [done|]. intros H.
      destruct (H cfn eq_refl) as (j' & c' & Hf' & Hb' & _).
      rewrite Hf in Hf'. injection Hf' as <- <-. done.
  - split; [done|]. intros H.
    destruct (H cfn eq_refl) as (j' & c' & Hf' & _). congruence.
Qed.

Lemma check_companions_nil (self : DataBase) :
  check_companions self = [] ↔ companions_consistent self.
Proof.
  unfold check_companions, companions_consistent.
  assert (Hflat : ∀ l : list Student,
    flat_map (check_companion self) l = [] ↔
    ∀ s, s ∈ l → check_companion self s = []).
  { induction l as [|s l IH]; simpl.
    - split; [|done]. intros _ s Hs. by apply elem_of_nil in Hs.
    - split.
      + intros Happ. apply app_eq_nil in Happ as [H1 H2].
        intros s' Hs'. apply elem_of_cons in Hs' as [->|Hs']; [done|].
        by apply IH.
      + intros H. rewrite (H s) by (by apply elem_of_cons; left). simpl.
        apply IH. intros s' Hs'. apply H. by apply elem_of_cons; right. }
  rewrite Hflat. split.
  - intros H key student cfn Hin Hc.
    apply (proj1 (check_companion_nil self student)); [|done].
    apply H. unfold values. apply list_elem_of_fmap. by exists (key, student).
  - intros H s Hs. apply check_companion_nil. intros cfn Hc.
    unfold values in Hs. apply list_elem_of_fmap in Hs as ([key s'] & -> & Hin).
    by eapply H.
Qed.

(** X12. [check_companions] logs nothing exactly when every companion
    that is named is in the database, names the student back and declares
    the same macro group. *)
Theorem check_companions_silent (self : DataBase) :
  check_companions self = [] ↔
  ∀ key student cfn, (key, student) ∈ self →
    companion_full_name student = Some cfn →
    ∃ j companion, dict_find self cfn = Some (j, companion) ∧
      companion_full_name companion = Some (full_name student) ∧
      macro_group student = macro_group companion.
Proof. apply check_companions_nil. Qed.

(** ** A database that passes the check *)

Lemma NoDup_keys_lookup {V} (d : dict V) i j key v w :
  NoDup (keys d) → d !! i = Some (key, v) → d !! j = Some (key, w) → i = j.
Proof.
  intros Hnd Hi Hj.
  pose proof (dict_find_lookup _ _ _ _ Hnd Hi) as H1.
  pose proof (dict_find_lookup _ _ _ _ Hnd Hj) as H2. congruence.
Qed.

(** X13. For a database with distinct keys that are the full names of the
    students, where nobody has a group, every student declares one of the
    four macro groups and [check_companions] logs nothing:
    [assign_groups] returns; every student has a leaf group of the macro
    group the student declares; and every student who names a companion is
    in the same group as the companion. *)
Theorem assign_groups_after_silent_check (self : DataBase) :
  NoDup (keys self) → keyed_by_full_name self → unassigned self →
  valid_groups self → check_companions self = [] →
  ∃ self' counts,
    assign_groups self = Returned (self', counts) ∧
    (∀ key student, (key, student) ∈ self' →
       ∃ grp, group student = Some grp ∧ In grp GROUPS ∧
              py_slice_to 2 grp = macro_group student) ∧
    (∀ key student cfn, (key, student) ∈ self' →
       companion_full_name student = Some cfn →
       ∃ j companion, dict_find self' cfn = Some (j, companion) ∧
         group companion = group student).
Proof.
  intros Hnd Hkeyed Hu Hvalid Hcheck.
  apply check_companions_nil in Hcheck.
  assert (Hpresent : companions_present self).
  { intros key student cfn Hin Hc.
    destruct (Hcheck _ _ _ Hin Hc) as (j & c & Hf & _).
    by eapply dict_find_elem. }
  destruct (assign_loop_total self (seq 0 (length self)) self init_counts
              Hvalid Hpresent init_counts_keys eq_refl) as [[self' counts] H].
  fold (assign_groups self) in H.
  exists self', counts. split; [exact H|].
  pose proof (assign_loop_grows (seq 0 (length self)) (self, init_counts))
    as [HR _].
  fold (assign_groups self) in HR. rewrite H in HR. simpl in HR.
  assert (Hnd' : NoDup (keys self')) by (by rewrite (roster_keys self)).
  pose proof (assign_groups_all_assigned _ _ _ H) as Hall.
  assert (Hok : keys counts = GROUPS ∧ placed_ok self').
  { unfold assign_groups in H.
    refine (assign_loop_Returned (λ st, keys st.2 = GROUPS ∧ placed_ok st.1)
              _ _ _ (self', counts) _ H).
    - intros i s c st'. apply placed_ok_step.
    - split; [apply init_counts_keys|by apply unassigned_placed_ok]. }
  destruct Hok as [_ Hok].
  assert (Hback : ∀ a key student', self' !! a = Some (key, student') →
            ∃ s0, self !! a = Some (key, s0) ∧ (key, s0) ∈ self ∧
                  group s0 = None ∧ key = full_name s0 ∧
                  macro_group s0 = macro_group student' ∧
                  companion_full_name s0 = companion_full_name student').
  { intros a key student' Ha.
    destruct (roster_lookup _ _ _ _ _ HR Ha) as (s0 & Hs0 & He).
    apply erase_group_fields in He as (Hm & Hc & _).
    assert (Hin : (key, s0) ∈ self) by (by eapply list_elem_of_lookup_2).
    exists s0. split_and!; try done; [by eapply Hu|by apply Hkeyed]. }
  split.
  - (* the group is one of the student's own macro group *)
    intros key student Hin. apply list_elem_of_lookup_1 in Hin as [a Ha].
    destruct (Hall key student) as [grp Hg]; [by eapply list_elem_of_lookup_2|].
    destruct (Hok _ _ _ _ Ha Hg) as [HG [Hl|(p & kt & t & Hp & Hc & _ & Hsl)]];
      [by exists grp|].
    exists grp. split_and!; [done..|]. rewrite Hsl.
    destruct (Hback _ _ _ Ha) as (s0 & Hs0 & _ & _ & _ & Hm & _).
    destruct (Hback _ _ _ Hp) as (t0 & Ht0 & Hint & _ & _ & Hmt & Hct).
    rewrite <- Hct in Hc.
    destruct (Hcheck _ _ _ Hint Hc) as (j & c & Hf & _ & Hmc).
    rewrite (dict_find_lookup _ _ _ _ Hnd Hs0) in Hf. injection Hf as <- <-.
    congruence.
  - (* the companion is in the same group *)
    intros key student cfn Hin Hc. apply list_elem_of_lookup_1 in Hin as [a Ha].
    destruct (Hback _ _ _ Ha) as (s0 & Hs0 & Hins & Hg0 & Hk0 & _ & Hc0).
    rewrite <- Hc0 in Hc.
    destruct (Hcheck _ _ _ Hins Hc) as (b & c0 & Hf & Hcb & _).
    pose proof (dict_find_Some _ _ _ _ Hf) as [Hb _].
    assert (Hinc : (cfn, c0) ∈ self) by (by eapply list_elem_of_lookup_2).
    pose proof (Hkeyed _ _ Hinc) as Hkc. pose proof (Hu _ _ Hinc) as Hgc.
    destruct (decide (a = b)) as [<-|Hab].
    + rewrite Hs0 in Hb. injection Hb as -> ->.
      exists a, student. split; [by apply dict_find_lookup|done].
    + destruct (pair_together self a b s0 c0) with (self' := self')
        (counts := counts) as (grp & Ha' & Hb'); try done; try congruence.
      * (* nobody else names one of the two *)
        intros c key' st Hcl Hca Hcb'.
        assert (Hinst : (key', st) ∈ self) by (by eapply list_elem_of_lookup_2).
        pose proof (Hkeyed _ _ Hinst) as Hkst.
        split; intros Hname.
        -- destruct (Hcheck _ _ _ Hinst Hname) as (j & cc & Hf' & Hcc & _).
           rewrite <- Hk0 in Hf'.
           rewrite (dict_find_lookup _ _ _ _ Hnd Hs0) in Hf'.
           injection Hf' as <- <-.
           apply Hcb'. apply (NoDup_keys_lookup self c b cfn st c0); try done.
           rewrite Hcl. do 2 f_equal. congruence.
        -- destruct (Hcheck _ _ _ Hinst Hname) as (j & cc & Hf' & Hcc & _).
           rewrite <- Hkc in Hf'.
           rewrite (dict_find_lookup _ _ _ _ Hnd Hb) in Hf'.
           injection Hf' as <- <-.
           apply Hca. apply (NoDup_keys_lookup self c a key st s0); try done.
           rewrite Hcl. do 2 f_equal. congruence.
      * rewrite <- Hk0 in Ha'. rewrite Ha in Ha'. injection Ha' as ->.
        rewrite <- Hkc in Hb'.
        exists b, (set_group c0 grp). split; [by apply dict_find_lookup|done].
Qed.

Lemma assign_groups_after_silent_check_witness :
  ∃ self' counts,
    assign_groups roster_pair = Returned (self', counts) ∧
    (∀ key student, (key, student) ∈ self' →
       ∃ grp, group student = Some grp ∧ In grp GROUPS ∧
              py_slice_to 2 grp = macro_group student) ∧
    (∀ key student cfn, (key, student) ∈ self' →
       companion_full_name student = Some cfn →
       ∃ j companion, dict_find self' cfn = Some (j, companion) ∧
         group companion = group student).
Proof.
  apply (assign_groups_after_silent_check roster_pair).
  - apply (bool_decide_unpack _). vm_compute. exact I.
  - intros key student Hin. vm_compute in Hin.
    repeat (apply elem_of_cons in Hin as [[= -> ->]|Hin]; [reflexivity|]).
    by apply elem_of_nil in Hin.
  - intros key student Hin. vm_compute in Hin.
    repeat (apply elem_of_cons in Hin as [[= -> ->]|Hin]; [reflexivity|]).
    by apply elem_of_nil in Hin.
  - intros key student Hin. vm_compute in Hin.
    repeat (apply elem_of_cons in Hin as [[= -> ->]|Hin]; [simpl; tauto|]).
    by apply elem_of_nil in Hin.
  - vm_compute. reflexivity.
Defined.

(** ** The sheets of the output file *)

Lemma turn_groups_GROUPS : flat_map turn_groups ROOM_GROUPS = GROUPS.
Proof. reflexivity. Qed.

Lemma turn_groups_slice rg grp :
  In rg ROOM_GROUPS →
  grp ∈ turn_groups rg ↔ In grp GROUPS ∧ py_slice_to 4 grp = rg.
Proof.
  intros Hrg. split.
  - intros Hin.
    repeat (destruct Hrg as [<-|Hrg];
      [ vm_compute in Hin;
        repeat (apply elem_of_cons in Hin as [->|Hin];
                [split; [vm_compute; tauto|reflexivity]|]);
        by apply elem_of_nil in Hin |]).
    destruct Hrg.
  - intros [Hg <-].
    repeat (destruct Hg as [<-|Hg];
      [apply (bool_decide_unpack _); vm_compute; exact I|]).
    destruct Hg.
Qed.

(** How many sheets a group is written to. *)
Lemma sheet_hits grp (rooms : list string) :
  (∀ rg, In rg rooms → grp ∉ turn_groups rg) →
  sum_list (map (λ rg, Nat.b2n (bool_decide (grp ∈ turn_groups rg))) rooms) = 0.
Proof.
  induction rooms as [|rg rooms IH]; intros H; [done|]. simpl.
  rewrite bool_decide_eq_false_2 by (apply H; by left).
  simpl. apply IH. intros rg' Hin. apply H. by right.
Qed.

Lemma sheet_hits_GROUPS grp :
  sum_list (map (λ rg, Nat.b2n (bool_decide (grp ∈ turn_groups rg))) ROOM_GROUPS)
  = Nat.b2n (bool_decide (grp ∈ GROUPS)).
Proof.
  destruct (decide (grp ∈ GROUPS)) as [Hin|Hnot].
  - rewrite (bool_decide_eq_true_2 _ Hin). apply list_elem_of_In in Hin.
    repeat (destruct Hin as [<-|Hin]; [vm_compute; reflexivity|]).
    destruct Hin.
  - rewrite (bool_decide_eq_false_2 _ Hnot). apply sheet_hits.
    intros rg Hrg Hin. apply Hnot. apply list_elem_of_In.
    by apply (proj1 (turn_groups_slice rg grp Hrg)).
Qed.

Lemma sheet_students_cons key student (self : DataBase) rg :
  length (sheet_students ((key, student) :: self) rg)
  = Nat.b2n (in_groups student (turn_groups rg))
    + length (sheet_students self rg).
Proof.
  unfold sheet_students. simpl. rewrite filter_cons.
  destruct (in_groups student (turn_groups rg)) eqn:E.
  - by rewrite decide_True.
  - rewrite decide_False; [done|congruence].
Qed.

Lemma sheets_rows (self : DataBase) (rooms : list string) :
  sum_list (map (λ rg, length (sheet_students self rg)) rooms)
  = sum_list (map (λ student,
       sum_list (map (λ rg, Nat.b2n (in_groups student (turn_groups rg))) rooms))
       (values self)).
Proof.
  induction self as [|[key student] self IH]; simpl.
  - induction rooms as [|rg rooms IHr]; [done|]. simpl. exact IHr.
  - rewrite <- IH. clear IH.
    induction rooms as [|rg rooms IHr]; [done|]. simpl.
    rewrite sheet_students_cons. simpl in IHr. lia.
Qed.

Lemma rows_count (l : list Student) :
  sum_list (map (λ student,
     sum_list (map (λ rg, Nat.b2n (in_groups student (turn_groups rg)))
                   ROOM_GROUPS)) l)
  = length (filter (λ student, in_groups student GROUPS = true) l).
Proof.
  induction l as [|student l IH]; [done|].
  rewrite filter_cons. cbn [map sum_list_with]. rewrite IH. clear IH.
  unfold id, in_groups. destruct (group student) as [grp|].
  - rewrite sheet_hits_GROUPS.
    destruct (bool_decide (grp ∈ GROUPS)).
    + by rewrite decide_True.
    + rewrite decide_False; [done|congruence].
  - rewrite decide_False by congruence. reflexivity.
Qed.

Lemma sheets_lengths (self : DataBase) :
  map (λ sheet, length sheet.2) (sheets self)
  = map (λ rg, length (sheet_students self rg)) ROOM_GROUPS.
Proof.
  unfold sheets. induction ROOM_GROUPS as [|rg rooms IH]; [done|].
  simpl. f_equal; [|exact IH]. unfold sheet_data. apply length_map.
Qed.

(** X14. The sheets of the output file, before each is sorted: a student is
    on the sheet of a room group exactly when the student has a leaf group
    whose first four characters are that room group, so a student with a
    leaf group is on one sheet and one only and a student without a group
    is on none; the sheets hold as many rows as there are students with a
    leaf group, and as many as there are students when [assign_groups] has
    returned on a database where nobody had a group. *)
Theorem sheets_partition :
  (∀ (self : DataBase) rg student,
     In rg ROOM_GROUPS →
     student ∈ sheet_students self rg ↔
     student ∈ values self ∧
     ∃ grp, group student = Some grp ∧ In grp GROUPS ∧ py_slice_to 4 grp = rg) ∧
  (∀ self : DataBase,
     keys (sheets self) = ROOM_GROUPS ∧
     sum_list (map (λ sheet, length sheet.2) (sheets self))
     = length (filter (λ student, in_groups student GROUPS = true) (values self))) ∧
  (∀ (self self' : DataBase) counts,
     unassigned self → assign_groups self = Returned (self', counts) →
     sum_list (map (λ sheet, length sheet.2) (sheets self')) = length self).
Proof.
  assert (Hrows : ∀ self : DataBase,
     sum_list (map (λ sheet, length sheet.2) (sheets self))
     = length (filter (λ student, in_groups student GROUPS = true) (values self))).
  { intros self. rewrite sheets_lengths, sheets_rows. apply rows_count. }
  split_and!.
  - intros self rg student Hrg. unfold sheet_students.
    rewrite list_elem_of_filter. unfold in_groups.
    destruct (group student) as [grp|].
    + rewrite bool_decide_eq_true, (turn_groups_slice rg grp Hrg).
      split.
      * intros [[HG Hs] Hv]. split; [done|]. by exists grp.
      * intros [Hv (g & [= <-] & HG & Hs)]. done.
    + split; [by intros [? _]|]. by intros [_ (g & ? & _)].
  - intros self. split; [|apply Hrows].
    unfold sheets, keys. rewrite map_map. apply map_id.
  - intros self self' counts Hu H. rewrite Hrows.
    assert (Hok : keys counts = GROUPS ∧ placed_ok self').
    { unfold assign_groups in H.
      refine (assign_loop_Returned (λ st, keys st.2 = GROUPS ∧ placed_ok st.1)
                _ _ _ (self', counts) _ H).
      - intros i s c st'. apply placed_ok_step.
      - split; [apply init_counts_keys|by apply unassigned_placed_ok]. }
    destruct Hok as [_ Hok].
    pose proof (assign_groups_all_assigned _ _ _ H) as Hall.
    pose proof (assign_groups_length self) as Hlen.
    rewrite H in Hlen. simpl in Hlen. rewrite <- Hlen.
    clear H Hlen Hu. unfold values.
    assert (Hevery : ∀ key student, (key, student) ∈ self' →
              in_groups student GROUPS = true).
    { intros key student Hin. destruct (Hall _ _ Hin) as [grp Hg].
      apply list_elem_of_lookup_1 in Hin as [a Ha].
      destruct (Hok _ _ _ _ Ha Hg) as [HG _].
      unfold in_groups. rewrite Hg. apply bool_decide_eq_true.
      by apply list_elem_of_In. }
    clear Hok Hall. induction self' as [|[k s] self' IH]; [done|].
    simpl. rewrite filter_cons.
    rewrite decide_True by (apply (Hevery k s); by apply elem_of_cons; left).
    simpl. f_equal. apply IH. intros k' s' Hin. apply (Hevery k' s').
    by apply elem_of_cons; right.
Qed.

Lemma sheets_partition_witness :
  sum_list (map (λ sheet, length sheet.2)
                (sheets (final_state (assign_groups roster_third)).1))
  = length roster_third.
Proof.
  apply (proj2 (proj2 sheets_partition) roster_third
           (final_state (assign_groups roster_third)).1
           (final_state (assign_groups roster_third)).2).
  - intros key student Hin. vm_compute in Hin.
    repeat (apply elem_of_cons in Hin as [[= -> ->]|Hin]; [reflexivity|]).
    by apply elem_of_nil in Hin.
  - vm_compute. reflexivity.
Defined.

(** ** A companion who is not there, whoever names them *)


(** ** Students without companions are dealt in turn *)

Lemma stair_arith k j :
  j < 6 →
  S k / 6 + (if decide (j < S k mod 6) then 1 else 0)
  = k / 6 + (if decide (j < k mod 6) then 1 else 0)
    + (if decide (j = k mod 6) then 1 else 0).
Proof.
  intros Hj.
  pose proof (Nat.div_mod_eq k 6) as Hk.
  pose proof (Nat.mod_upper_bound k 6 ltac:(lia)) as Hr.
  remember (k / 6) as q eqn:Hq. remember (k mod 6) as r eqn:Hr'.
  clear Hq Hr'.
  destruct (decide (r = 5)) as [H5|H5].
  - assert (H1 : S q = S k / 6) by (apply (Nat.div_unique _ _ _ 0); lia).
    assert (H2 : 0 = S k mod 6) by (apply (Nat.mod_unique _ _ (S q)); lia).
    rewrite <- H1, <- H2. repeat case_decide; lia.
  - assert (H1 : q = S k / 6) by (apply (Nat.div_unique _ _ _ (S r)); lia).
    assert (H2 : S r = S k mod 6) by (apply (Nat.mod_unique _ _ q); lia).
    rewrite <- H1, <- H2. repeat case_decide; lia.
Qed.

Lemma candidates_NoDup mg : NoDup (candidates mg).
Proof. apply NoDup_filter, GROUPS_NoDup. Qed.

Lemma stair_init mg : stair mg 0 init_counts.
Proof.
  split; [apply init_counts_keys|]. intros j g _.
  rewrite init_counts_zero. change (0 / 6) with 0. change (0 mod 6) with 0.
  by rewrite decide_False by lia.
Qed.

Lemma stair_min mg k count_dict grp :
  In mg MACRO_GROUPS → stair mg k count_dict →
  min_group (dict_subset count_dict mg) = Some grp →
  candidates mg !! (k mod 6) = Some grp.
Proof.
  intros Hmg [Hk Hst] Hmin.
  apply min_group_Some in Hmin as (pre & post & Hl & Hpre & Hpost).
  rewrite Hk in Hl. fold (candidates mg) in Hl.
  pose proof (candidates_length _ Hmg) as Hlen.
  pose proof (Nat.mod_upper_bound k 6 ltac:(lia)) as Hr.
  assert (Hj : candidates mg !! length pre = Some grp)
    by (rewrite Hl; apply list_lookup_middle; done).
  destruct (lookup_lt_is_Some_2 (candidates mg) (k mod 6)) as [gr Hgr]; [lia|].
  pose proof (Hst _ _ Hj) as Cj. pose proof (Hst _ _ Hgr) as Cr.
  rewrite decide_False in Cr by lia.
  destruct (lt_eq_lt_dec (k mod 6) (length pre)) as [[Hlt|Heq]|Hgt].
  - exfalso. assert (Hin : gr ∈ pre).
    { rewrite Hl, lookup_app_l in Hgr by done. by eapply list_elem_of_lookup_2. }
    specialize (Hpre _ Hin). rewrite decide_False in Cj by lia. lia.
  - by rewrite Heq.
  - exfalso. assert (Hin : gr ∈ post).
    { rewrite Hl, lookup_app_r in Hgr by lia.
      destruct (k mod 6 - length pre) as [|d] eqn:E; [lia|].
      simpl in Hgr. by eapply list_elem_of_lookup_2. }
    specialize (Hpost _ Hin). rewrite decide_True in Cj by lia. lia.
Qed.

Lemma stair_incr mg k count_dict grp count_dict' :
  In mg MACRO_GROUPS → stair mg k count_dict →
  candidates mg !! (k mod 6) = Some grp →
  dict_incr count_dict grp = Some count_dict' →
  stair mg (S k) count_dict'.
Proof.
  intros Hmg [Hk Hst] Hgrp Hincr. split.
  - by rewrite (dict_incr_keys _ _ _ Hincr).
  - intros j g Hj. rewrite (dict_incr_get _ _ _ g Hincr), (Hst _ _ Hj).
    rewrite stair_arith
      by (apply lookup_lt_Some in Hj; by rewrite candidates_length in Hj).
    f_equal.
    destruct (decide (j = k mod 6)) as [->|Hne].
    + rewrite decide_True; [done|congruence].
    + rewrite decide_False; [done|]. intros ->. apply Hne.
      by eapply (NoDup_lookup (candidates mg)); [apply candidates_NoDup|..].
Qed.

Lemma assign_body_single mg k (self : DataBase) count_dict i key student :
  In mg MACRO_GROUPS → stair mg k count_dict →
  self !! i = Some (key, student) → group student = None →
  companion_full_name student = None → macro_group student = mg →
  ∃ grp count1,
    candidates mg !! (k mod 6) = Some grp ∧ stair mg (S k) count1 ∧
    assign_body i (self, count_dict) = Returned (store_group i grp self, count1).
Proof.
  intros Hmg Hst Hi Hg Hc Hm.
  pose proof (assign_body_spec i self count_dict) as Hb.
  remember (assign_body i (self, count_dict)) as o eqn:Ho. clear Ho.
  destruct (select_valid count_dict mg (proj1 Hst) Hmg) as (grp0 & Hsel & Hsl & _).
  destruct Hb as [ Hs | k0 s Hi' Hg' Hmin | k0 s grp Hi' Hg' Hmin Ha
                 | k0 s grp count1 Hi' Hg' Hmin Ha H1 Hcomp
                 | k0 s grp count1 cfn' Hi' Hg' Hmin Ha H1 Hcomp Hf
                 | k0 s grp count1 count2 cfn' j' companion'
                     Hi' Hg' Hmin Ha H1 Hcomp Hf Hgc' H2 ];
    try (rewrite Hi in Hi'; injection Hi' as <- <-); try congruence.
  - destruct (Hs _ _ Hi) as [g Hsome]. congruence.
  - rewrite Hm in Hmin. pose proof (stair_min _ _ _ _ Hmg Hst Hmin) as Hgrp.
    exists grp, count1. split_and!; [done| |done]. by eapply stair_incr.
Qed.

Lemma assign_loop_round_robin mg :
  In mg MACRO_GROUPS →
  ∀ m a (self : DataBase) count_dict,
    a + m = length self → stair mg a count_dict →
    (∀ p, a ≤ p → p < length self →
       ∃ key student, self !! p = Some (key, student) ∧ group student = None ∧
         companion_full_name student = None ∧ macro_group student = mg) →
    ∃ self' counts,
      assign_loop (seq a m) (self, count_dict) = Returned (self', counts) ∧
      length self' = length self ∧
      (∀ p, p < a → self' !! p = self !! p) ∧
      (∀ p, a ≤ p → p < length self →
         ∃ key student, self' !! p = Some (key, student) ∧
           group student = candidates mg !! (p mod 6)).
Proof.
  intros Hmg. induction m as [|m IH]; intros a self cd Hlen Hst Htodo;
    cbn [seq assign_loop].
  - exists self, cd. split_and!; [done..|]. intros p ? ?. lia.
  - destruct (Htodo a) as (key & student & Hi & Hg & Hc & Hm); [lia..|].
    destruct (assign_body_single mg a self cd a key student)
      as (grp & count1 & Hgrp & Hst1 & ->); try done.
    destruct (IH (S a) (store_group a grp self) count1)
      as (self' & counts & Hloop & Hlen' & Hbefore & Hafter).
    + unfold store_group. rewrite length_alter. lia.
    + done.
    + intros p Hp1 Hp2. unfold store_group in Hp2. rewrite length_alter in Hp2.
      rewrite store_group_lookup_ne by lia. apply Htodo; lia.
    + unfold store_group in Hlen', Hafter. rewrite length_alter in Hlen', Hafter.
      exists self', counts. split_and!; [done..| |].
      * intros p Hp. rewrite Hbefore by lia. apply store_group_lookup_ne. lia.
      * intros p Hp1 Hp2. destruct (decide (p = a)) as [->|Hne].
        -- exists key, (set_group student grp).
           rewrite Hbefore by lia. split; [by apply store_group_lookup|done].
        -- apply Hafter; lia.
Qed.

(** X16. When nobody has a group, nobody names a companion and all the
    students declare the same one of the four macro groups,
    [assign_groups] returns and deals the students to the six leaf groups of
    the macro group in turn: the student at position [k] of the database
    gets the candidate at position [k mod 6]. *)
Theorem singles_round_robin (self : DataBase) (mg : string) :
  In mg MACRO_GROUPS →
  (∀ key student, (key, student) ∈ self →
     macro_group student = mg ∧ companion_full_name student = None ∧
     group student = None) →
  ∃ self' counts,
    assign_groups self = Returned (self', counts) ∧
    groups_of self'
    = map (λ k, candidates mg !! (k mod 6)) (seq 0 (length self)).
Proof.
  intros Hmg Hall.
  destruct (assign_loop_round_robin mg Hmg (length self) 0 self init_counts)
    as (self' & counts & H & Hlen & _ & Hafter).
  - done.
  - apply stair_init.
  - intros p _ Hp. destruct (lookup_lt_is_Some_2 self p Hp) as [[key student] Hl].
    destruct (Hall key student) as (? & ? & ?); [by eapply list_elem_of_lookup_2|].
    by exists key, student.
  - exists self', counts. split; [exact H|].
    apply list_eq. intros p. unfold groups_of, values.
    change (map ?f ?l) with (f <$> l). rewrite !list_lookup_fmap.
    destruct (decide (p < length self)) as [Hp|Hp].
    + destruct (Hafter p) as (key & student & -> & Hg); [lia..|].
      rewrite lookup_seq_lt by done. simpl. by rewrite Hg.
    + rewrite lookup_ge_None_2 by lia.
      by rewrite lookup_seq_ge by lia.
Qed.

Lemma singles_round_robin_witness :
  ∃ self' counts,
    assign_groups (DataBase_of [single "Dora" "A2" None; single "Elio" "A2" None])
    = Returned (self', counts) ∧
    groups_of self'
    = map (λ k, candidates "A2" !! (k mod 6))
          (seq 0 (length (DataBase_of [single "Dora" "A2" None;
                                       single "Elio" "A2" None]))).
Proof.
  apply (singles_round_robin
           (DataBase_of [single "Dora" "A2" None; single "Elio" "A2" None]) "A2").
  - simpl. tauto.
  - intros key student Hin. vm_compute in Hin.
    repeat (apply elem_of_cons in Hin as [[= -> ->]|Hin]; [by split_and!|]).
    by apply elem_of_nil in Hin.
Defined.
